(** * tools/platformio-build.py: size expressions and the flash partition

    A shallow embedding of the two functions of the PlatformIO build script
    that carry logic, [convert_size_expression_to_int] and
    [populate_sketch_partition_info], and of the top-level statement that
    calls the latter, followed by the properties proved about them.

    Conventions of the embedding:
    - Python [int] is [Z]; Python [float] is IEEE-754 binary64, given by the
      standard library's [spec_float] at precision 53 and maximal exponent
      1024; [str] is [string], one [ascii] per character (the only
      characters either regular-expression class accepts are ASCII);
    - the board configuration ([board]) and the SCons construction
      environment ([env]) are finite maps from option names to values; the
      two output streams are lists of messages, a message being the format
      string's arguments;
    - a computation takes the world and ends by returning, by raising a
      Python exception or by leaving the process ([env.Exit]); the world
      as it was when the exception was raised is kept. *)

From Stdlib Require Import ZArith Ascii String SpecFloat DecimalString.
From stdpp Require Import gmap strings.

#[local] Open Scope Z_scope.

(** ** Values, messages and the world *)

(** The JSON values a board manifest holds and the script looks at. *)
#[warnings="-register-all"]
Inductive value :=
| VNone
| VInt (z : Z)
| VStr (s : string)
| VList (l : list value).

(** Python's truth value, as [not] and [if] use it. *)
Definition truthy (v : value) : bool :=
  match v with
  | VNone => false
  | VInt z => negb (z =? 0)
  | VStr s => negb (String.eqb s "")
  | VList l => match l with [] => false | _ => true end
  end.

Inductive exn := TypeError | KeyError | ValueError | OverflowError.

(** One entry per [sys.stderr.write] and [print] of the two functions,
    holding the arguments of its format string. *)
Inductive message :=
| MsgParseError (expression : string)
    (* "Error: Could not parse filesystem size expression '%s'. Will treat as size = 0.\n" *)
| MsgFlashSize (mb : spec_float)        (* "Flash size: %.2fMB" *)
| MsgSketchSize (mb : spec_float)       (* "Sketch size: %.2fMB" *)
| MsgFilesystemSize (mb : spec_float)   (* "Filesystem size: %.2fMB" *)
| MsgTooLarge (maximum_size : Z)
    (* "Error: Filesystem too large for given flash. ... would be %d bytes.\n" *)
| MsgValues (maximum_size flash_length eeprom_start fs_start fs_end : Z).
    (* "Maximium size: %d Flash Length: %d EEPROM Start: %d Filesystem start %d Filesystem end %s" *)

Record world := World {
  board : gmap string value;          (* board = env.BoardConfig() *)
  env : gmap string value;            (* env = DefaultEnvironment() *)
  depends : list (string * string);   (* edges added by env.Depends *)
  stdout : list message;
  stderr : list message
}.

Inductive outcome (A : Type) :=
| Return (a : A) (w : world)
| Raised (e : exn) (w : world)
| Exited (status : Z) (w : world).
Arguments Return {A} a w.
Arguments Raised {A} e w.
Arguments Exited {A} status w.

(** ** The monad of script computations *)

Definition M (A : Type) : Type := world → outcome A.

#[global] Instance M_ret : MRet M := λ A a w, Return a w.

#[global] Instance M_bind : MBind M := λ A B f c w,
  match c w with
  | Return a w' => f a w'
  | Raised e w' => Raised e w'
  | Exited s w' => Exited s w'
  end.

Definition raise {A} (e : exn) : M A := λ w, Raised e w.

(** [env.Exit(status)]: SCons hands the status to [sys.exit]. *)
Definition env_Exit (status : Z) : M unit := λ w, Exited status w.

Definition write_stderr (m : message) : M unit := λ w,
  Return tt (World (board w) (env w) (depends w) (stdout w) (stderr w ++ [m])).

Definition print (m : message) : M unit := λ w,
  Return tt (World (board w) (env w) (depends w) (stdout w ++ [m]) (stderr w)).

(** [board.get(path)]: PlatformIO raises [KeyError] for an option that the
    manifest lacks when no default is given. *)
Definition board_get (path : string) : M value := λ w,
  match board w !! path with
  | Some v => Return v w
  | None => Raised KeyError w
  end.

(** [board.get(path, default)]. *)
Definition board_get_default (path : string) (dflt : value) : M value := λ w,
  Return (default dflt (board w !! path)) w.

(** [board.update(path, v)]. *)
Definition board_update (path : string) (v : value) : M unit := λ w,
  Return tt (World (<[path := v]> (board w)) (env w) (depends w) (stdout w) (stderr w)).

(** [env[name] = v], and [env.Replace(name=v)] for a single variable. *)
Definition env_set (name : string) (v : value) : M unit := λ w,
  Return tt (World (board w) (<[name := v]> (env w)) (depends w) (stdout w) (stderr w)).

(** [env.Depends(target, dependency)]. *)
Definition env_Depends (target dependency : string) : M unit := λ w,
  Return tt (World (board w) (env w) (depends w ++ [(target, dependency)])
                   (stdout w) (stderr w)).

(** ** Python floats *)

Definition prec : Z := 53.
Definition emax : Z := 1024.

(** The correctly rounded (to nearest, ties to even) binary64 value of the
    fraction [p / q], for [0 <= p] and [0 < q]. *)
Definition float_of_ratio (p q : Z) : spec_float :=
  match p with
  | Z0 => S754_zero false
  | _ => let '(m, e, l) := SFdiv_core_binary prec emax p 0 q 0 in
         binary_round_aux prec emax false m e l
  end.

(** The least magnitude of an [int] that rounds beyond the largest float:
    halfway between [(2^53 - 1) * 2^971] and [2^1024]. *)
Definition float_overflow_threshold : Z := 2 ^ 1024 - 2 ^ 970.

Definition float_convertible (z : Z) : bool := Z.abs z <? float_overflow_threshold.

(** The conversion of an [int] operand of a float operation; it raises
    [OverflowError] ("int too large to convert to float") where the rounded
    value would be infinite. *)
Definition float_of_int (z : Z) : M spec_float :=
  if float_convertible z then mret (binary_normalize prec emax z 0 false)
  else raise OverflowError.

(** [x / 1024.0 / 1024.0] for an [int] [x]. *)
Definition float_1024 : spec_float := binary_normalize prec emax 1024 0 false.

Definition megabytes (x : Z) : M spec_float :=
  f ← float_of_int x;
  mret (SFdiv prec emax (SFdiv prec emax f float_1024) float_1024).

(** The float that [megabytes] returns when it returns. *)
Definition mb (x : Z) : spec_float :=
  SFdiv prec emax
    (SFdiv prec emax (binary_normalize prec emax x 0 false) float_1024)
    float_1024.

(** [int(x)] for a float [x]: truncation towards zero. *)
Definition int_of_float (x : spec_float) : M Z :=
  match x with
  | S754_zero _ => mret 0
  | S754_finite s m e =>
      let a := match e with
               | Zneg k => Z.pos m / 2 ^ Z.pos k
               | _ => Z.pos m * 2 ^ e
               end in
      mret (if s then - a else a)
  | S754_infinity _ => raise OverflowError
  | S754_nan => raise ValueError
  end.

(** ** Strings and the regular expression of the size parser *)

Definition newline : ascii := "010"%char.

(** [[0-9]] *)
Definition is_digit (c : ascii) : bool :=
  let n := N_of_ascii c in (48 <=? n)%N && (n <=? 57)%N.

(** [[mkbMKB]] *)
Definition is_unit_letter (c : ascii) : bool :=
  bool_decide (c ∈ ["m"; "k"; "b"; "M"; "K"; "B"]%char).

Fixpoint string_forall (p : ascii → bool) (s : string) : bool :=
  match s with
  | "" => true
  | String c r => p c && string_forall p r
  end.

Fixpoint string_map (f : ascii → ascii) (s : string) : string :=
  match s with
  | "" => ""
  | String c r => String (f c) (string_map f r)
  end.

(** The longest prefix of characters in a class, and what follows it: how
    a greedy starred class consumes its input. *)
Fixpoint span (p : ascii → bool) (s : string) : string * string :=
  match s with
  | "" => ("", "")
  | String c r =>
      if p c then let '(a, b) := span p r in (String c a, b) else ("", s)
  end.

(** [$]: at the end of the string, or before a newline that ends it. *)
Definition at_end (s : string) : bool :=
  match s with
  | "" => true
  | String c "" => Ascii.eqb c newline
  | _ => false
  end.

(** The first group, (?:[0-9]*[.])?[0-9]+ , matched at the start of [s]:
    the group's text and the rest of the input. When a point follows the
    leading digits it belongs to the number, which then needs a digit after
    it; no shorter match of the group can be continued to a match of the
    whole expression, since what follows it would be a digit or the point. *)
Definition after_point (s : string) : option string :=
  match s with
  | String c r => if Ascii.eqb c "." then Some r else None
  | "" => None
  end.

Definition match_number (s : string) : option (string * string) :=
  let '(d1, r1) := span is_digit s in
  match after_point r1 with
  | Some r2 =>
      let '(d2, r3) := span is_digit r2 in
      match d2 with
      | "" => None
      | _ => Some (d1 +:+ "." +:+ d2, r3)
      end
  | None =>
      match d1 with
      | "" => None
      | _ => Some (d1, r1)
      end
  end.

(** [re.findall(extract_regex, s)]: the list of the matches' group pairs.
    The pattern is, between the anchors ^ and $, a first group
    (?:[0-9]*[.])?[0-9]+ and a second group [mkbMKB]* . The expression is anchored at the start, so
    there is at most one match. *)
Definition re_findall (s : string) : list (string * string) :=
  match match_number s with
  | Some (number, r) =>
      let '(factor, tail) := span is_unit_letter r in
      if at_end tail then [(number, factor)] else []
  | None => []
  end.

(** The language of the regular expression, read off its syntax. *)
Inductive number_text : string → Prop :=
| number_whole d :
    string_forall is_digit d = true → d ≠ "" → number_text d
| number_point d0 d :
    string_forall is_digit d0 = true →
    string_forall is_digit d = true → d ≠ "" →
    number_text (d0 +:+ "." +:+ d).

Definition regex_match (s number factor : string) : Prop :=
  number_text number ∧ string_forall is_unit_letter factor = true ∧
  (s = number +:+ factor ∨ s = number +:+ factor +:+ String newline "").

(** ** [convert_size_expression_to_int] *)

Definition digit_value (c : ascii) : Z := Z.of_N (N_of_ascii c) - 48.

Fixpoint digits_value (acc : Z) (s : string) : Z :=
  match s with
  | "" => acc
  | String c r => digits_value (10 * acc + digit_value c) r
  end.

(** [float(s)] on the texts the first group can hold: decimal digits with
    at most one point and at least one digit, read as the fraction
    (all digits) / 10^(digits after the point) and rounded once. The
    builtin accepts more (signs, exponents, blanks); the parser never
    hands it such a text, and the model answers [ValueError] there. *)
Definition py_float (s : string) : M spec_float :=
  let '(i, r) := span is_digit s in
  match r with
  | "" =>
      match i with
      | "" => raise ValueError
      | _ => mret (float_of_ratio (digits_value 0 i) 1)
      end
  | _ =>
      match after_point r with
      | Some f =>
          if string_forall is_digit f && negb (String.eqb (i +:+ f) "")
          then mret (float_of_ratio (digits_value 0 (i +:+ f))
                                    (10 ^ Z.of_nat (String.length f)))
          else raise ValueError
      | None => raise ValueError
      end
  end.

(** [str.upper()] on ASCII letters. *)
Definition upper_char (c : ascii) : ascii :=
  let n := N_of_ascii c in
  if (97 <=? n)%N && (n <=? 122)%N then ascii_of_N (n - 32) else c.

Definition upper : string → string := string_map upper_char.

Definition conversion_factors : gmap string Z :=
  {[ "M" := 1024 * 1024;
     "MB" := 1024 * 1024;
     "K" := 1024;
     "KB" := 1024;
     "B" := 1;
     "" := 1 ]}.

(** [d[k]] on a dict. *)
Definition dict_get (d : gmap string Z) (k : string) : M Z :=
  match d !! k with
  | Some v => mret v
  | None => raise KeyError
  end.

Definition convert_size_expression_to_int (expression : value) : M Z :=
  match expression with
  | VStr s =>
      match re_findall s with
      | [] =>
          write_stderr (MsgParseError s);;
          mret 0
      | (number, factor) :: _ =>
          number ← py_float number;
          k ← dict_get conversion_factors (upper factor);
          k ← float_of_int k;
          int_of_float (SFmul prec emax number k)
      end
  | _ => raise TypeError   (* re.findall: expected string *)
  end.


(** ** [populate_sketch_partition_info] *)

(** An operand of integer arithmetic: subtracting from [None], a [str] or
    a [list] raises [TypeError]. *)
Definition as_int (v : value) : M Z :=
  match v with
  | VInt z => mret z
  | _ => raise TypeError
  end.

Definition populate_sketch_partition_info : M unit :=
  flash_size ← board_get "upload.maximum_size";
  filesystem_size ← board_get_default "build.filesystem_size" (VStr "0MB");
  filesystem_size_int ← convert_size_expression_to_int filesystem_size;
  flash_size ← as_int flash_size;
  let maximum_size := flash_size - 4096 - filesystem_size_int in
  mb ← megabytes flash_size;
  print (MsgFlashSize mb);;
  mb ← megabytes maximum_size;
  print (MsgSketchSize mb);;
  mb ← megabytes filesystem_size_int;
  print (MsgFilesystemSize mb);;
  let flash_length := maximum_size in
  let eeprom_start := 0x10000000 + flash_size - 4096 in
  let fs_start := 0x10000000 + flash_size - 4096 - filesystem_size_int in
  let fs_end := 0x10000000 + flash_size - 4096 in
  (if maximum_size <=? 0
   then write_stderr (MsgTooLarge maximum_size);; env_Exit (-1)
   else mret tt);;
  board_update "upload.maximum_size" (VInt maximum_size);;
  env_set "PICO_FLASH_LENGTH" (VInt flash_length);;
  env_set "PICO_EEPROM_START" (VInt eeprom_start);;
  env_set "PICO_FS_START" (VInt fs_start);;
  env_set "PICO_FS_END" (VInt fs_end);;
  print (MsgValues maximum_size flash_length eeprom_start fs_start fs_end).

(** ** The top-level statement that selects the linker script *)

(** [os.path.join("$BUILD_DIR", "memmap_default.ld")], the target of
    [linkerscript_cmd], with the POSIX separator. *)
Definition memmap_default_ld : string := "$BUILD_DIR/memmap_default.ld".

(** [if not board.get("build.ldscript", ""): ...] *)
Definition select_linker_script : M unit :=
  ldscript ← board_get_default "build.ldscript" (VStr "");
  if negb (truthy ldscript) then
    populate_sketch_partition_info;;
    env_Depends "$BUILD_DIR/${PROGNAME}.elf" memmap_default_ld;;
    env_set "LDSCRIPT_PATH" (VStr memmap_default_ld)
  else mret tt.

(** ** Predicates and measures used in the statements *)

(** What [span] returns: the input split in two, the first part within the
    class and the second not starting in it. *)
Definition stops (p : ascii → bool) (s : string) : Prop :=
  match s with
  | "" => True
  | String c _ => p c = false
  end.

Definition number_follow (c : ascii) : bool := is_digit c || Ascii.eqb c ".".

(** A float that is not negative: a NaN has no sign and is let through,
    [int] raises on it. *)
Definition unsigned_float (x : spec_float) : Prop :=
  match x with
  | S754_zero s | S754_infinity s | S754_finite s _ _ => s = false
  | S754_nan => True
  end.

(** A finite float out of the rounding has a mantissa below [2^53] and an
    exponent of at most 971. *)
Definition bounded_float (x : spec_float) : Prop :=
  match x with
  | S754_finite _ m e => Z.pos m < 2 ^ prec ∧ e ≤ emax - prec
  | _ => True
  end.

(** The largest float, as an integer. *)
Definition max_float_int : Z := (2 ^ 53 - 1) * 2 ^ 971.

(** The world after more messages went to the error stream. *)
Definition add_stderr (w : world) (l : list message) : world :=
  World (board w) (env w) (depends w) (stdout w) (stderr w ++ l).

(** A computation that leaves the world alone, whatever it is: it returns
    one value or raises one exception. *)
Definition pure_comp {A} (c : M A) : Prop :=
  ∃ r : A + exn, ∀ w,
    c w = match r with inl a => Return a w | inr e => Raised e w end.

(** The three lines of the summary. *)
Definition summary (flash_size filesystem_size_int : Z) : list message :=
  [ MsgFlashSize (mb flash_size);
    MsgSketchSize (mb (flash_size - 4096 - filesystem_size_int));
    MsgFilesystemSize (mb filesystem_size_int) ].

(** The world a run that passes the check leaves behind. *)
Definition layout_published (w : world) (flash_size fs : Z) : world :=
  let maximum_size := flash_size - 4096 - fs in
  World
    (<["upload.maximum_size" := VInt maximum_size]> (board w))
    (<["PICO_FS_END" := VInt (0x10000000 + flash_size - 4096)]>
       (<["PICO_FS_START" := VInt (0x10000000 + flash_size - 4096 - fs)]>
          (<["PICO_EEPROM_START" := VInt (0x10000000 + flash_size - 4096)]>
             (<["PICO_FLASH_LENGTH" := VInt maximum_size]> (env w)))))
    (depends w)
    (stdout w ++ summary flash_size fs
       ++ [MsgValues maximum_size maximum_size
             (0x10000000 + flash_size - 4096)
             (0x10000000 + flash_size - 4096 - fs)
             (0x10000000 + flash_size - 4096)])
    (stderr w).

(** The world a run that fails the check leaves behind. *)
Definition build_aborted (w : world) (flash_size fs : Z) : world :=
  World (board w) (env w) (depends w)
    (stdout w ++ summary flash_size fs)
    (stderr w ++ [MsgTooLarge (flash_size - 4096 - fs)]).

(** [float] returns on every text of the first group. *)
Definition number_float (n : string) : spec_float :=
  let '(i, r) := span is_digit n in
  match after_point r with
  | Some f => float_of_ratio (digits_value 0 (i +:+ f))
                             (10 ^ Z.of_nat (String.length f))
  | None => float_of_ratio (digits_value 0 i) 1
  end.

(** The spellings of the six units, in either case, with their factors. *)
Definition unit_spellings : list (string * Z) :=
  [ ("", 1); ("B", 1); ("b", 1);
    ("K", 1024); ("k", 1024);
    ("KB", 1024); ("Kb", 1024); ("kB", 1024); ("kb", 1024);
    ("M", 1024 * 1024); ("m", 1024 * 1024);
    ("MB", 1024 * 1024); ("Mb", 1024 * 1024); ("mB", 1024 * 1024);
    ("mb", 1024 * 1024) ].

(** How a run ends, and the world it ends in. *)
Inductive ending := Returned | Raising (e : exn) | Exiting (status : Z).

Definition ending_of {A} (o : outcome A) : ending :=
  match o with
  | Return _ _ => Returned
  | Raised e _ => Raising e
  | Exited st _ => Exiting st
  end.

Definition world_of {A} (o : outcome A) : world :=
  match o with
  | Return _ w | Raised _ w | Exited _ w => w
  end.

(** What a run added to a stream that held [before] when it started. *)
Definition emitted (before after : list message) : list message :=
  drop (length before) after.

(** The construction variables the linker-script command substitutes. *)
Definition published_names : list string :=
  [ "PICO_FLASH_LENGTH"; "PICO_EEPROM_START"; "PICO_FS_START"; "PICO_FS_END" ].

(** A small world to run the functions in: a board manifest and nothing
    else. *)
Definition fresh_world (b : gmap string value) : world := World b ∅ [] [] [].

Definition board_2MB (filesystem_size : string) : gmap string value :=
  {[ "upload.maximum_size" := VInt (2 * 1024 * 1024);
     "build.filesystem_size" := VStr filesystem_size ]}.

Definition world_2MB (filesystem_size : string) : world :=
  fresh_world (board_2MB filesystem_size).

(** The same board with a linker script of its own. *)
Definition world_custom_ldscript : world :=
  fresh_world (<["build.ldscript" := VStr "custom.ld"]> (board_2MB "1MB")).

(** A float that holds the integer [N] exactly: a zero for 0, or a
    mantissa [N * 2^(-e)] at an exponent [e] that is not positive. *)
Definition holds_int (x : spec_float) (N : Z) : Prop :=
  match x with
  | S754_zero _ => N = 0
  | S754_finite false m e => e ≤ 0 ∧ Z.pos m = N * 2 ^ (- e)
  | _ => False
  end.

(** ** [configure_usb_flags] *)

(** The exceptions of subscripts and item assignments. *)
Inductive item_exn := IndexError | ItemTypeError.

(** [v[i]] for an index that is not negative. *)
Definition py_getitem (v : value) (i : nat) : value + item_exn :=
  match v with
  | VList l =>
      match l !! i with
      | Some x => inl x
      | None => inr IndexError
      end
  | VStr s =>
      match String.get i s with
      | Some c => inl (VStr (String c ""))
      | None => inr IndexError
      end
  | VNone | VInt _ => inr ItemTypeError
  end.

(** [v[i] = x]: the list with the item replaced; a [str] takes no item
    assignment. *)
Definition py_setitem (v : value) (i : nat) (x : value) : value + item_exn :=
  match v with
  | VList l =>
      match l !! i with
      | Some _ => inl (VList (<[i := x]> l))
      | None => inr IndexError
      end
  | VStr _ | VNone | VInt _ => inr ItemTypeError
  end.

(** [x in l] for a [str] [x]. *)
Definition py_in_str (x : string) (l : list value) : bool :=
  existsb (λ v, match v with VStr t => String.eqb x t | _ => false end) l.

(** [os.path.join(a, *ps)] of posixpath. *)
Definition ends_with_sep (s : string) : bool :=
  match String.get (String.length s - 1) s with
  | Some c => Ascii.eqb c "/"
  | None => false
  end.

Definition starts_with_sep (s : string) : bool :=
  match s with
  | String c _ => Ascii.eqb c "/"
  | "" => false
  end.

Definition os_path_join (a : string) (ps : list string) : string :=
  foldl (λ path b,
           if starts_with_sep b then b
           else if String.eqb path "" || ends_with_sep path then path +:+ b
           else path +:+ "/" +:+ b)
        a ps.

(** An item of a list given to [env.Append(CPPDEFINES=...)]: a name, a
    pair of a name and a value, or a pair of a name and the text that the
    format with %s between two escaped double quotes makes of a value. *)
Inductive cppdefine :=
| Flag (name : string)
| Macro (name : string) (v : value)
| MacroQuoted (name : string) (v : value).

(** What [configure_usb_flags] reads and writes: the board configuration,
    the items it has appended to CPPPATH and to CPPDEFINES, in order, and
    the global [ram_size]. *)
Record usb_state := UsbState {
  usb_board : gmap string value;
  usb_cpppath : list string;
  usb_cppdefines : list cppdefine;
  ram_size : value
}.

Definition UM (A : Type) : Type := usb_state → (A + item_exn) * usb_state.

#[global] Instance UM_ret : MRet UM := λ A a s, (inl a, s).

#[global] Instance UM_bind : MBind UM := λ A B f c s,
  match c s with
  | (inl a, s') => f a s'
  | (inr e, s') => (inr e, s')
  end.

Definition um_lift {A} (r : A + item_exn) : UM A := λ s, (r, s).

(** [board.get(path, default)] *)
Definition usb_board_get (path : string) (dflt : value) : UM value := λ s,
  (inl (default dflt (usb_board s !! path)), s).

(** [board.update(path, v)] *)
Definition usb_board_update (path : string) (v : value) : UM unit := λ s,
  (inl tt, UsbState (<[path := v]> (usb_board s)) (usb_cpppath s)
                    (usb_cppdefines s) (ram_size s)).

(** [env.Append(CPPPATH=items)] *)
Definition append_cpppath (items : list string) : UM unit := λ s,
  (inl tt, UsbState (usb_board s) (usb_cpppath s ++ items)
                    (usb_cppdefines s) (ram_size s)).

(** [env.Append(CPPDEFINES=items)] *)
Definition append_cppdefines (items : list cppdefine) : UM unit := λ s,
  (inl tt, UsbState (usb_board s) (usb_cpppath s)
                    (usb_cppdefines s ++ items) (ram_size s)).

(** [ram_size = v] on the global. *)
Definition set_ram_size (v : value) : UM unit := λ s,
  (inl tt, UsbState (usb_board s) (usb_cpppath s) (usb_cppdefines s) v).

Definition get_ram_size : UM value := λ s, (inl (ram_size s), s).

(** [hw_ids[0][i] = x]. The list [hw_ids] is the object the board
    configuration holds under build.hwids when the option is there
    ([shared]), and then the assignment shows in the configuration at
    once; it is the fresh default list otherwise. The result is [hw_ids]
    after the assignment. *)
Definition assign_hw_id (shared : bool) (hw_ids : value) (i : nat) (x : value)
  : UM value :=
  row ← um_lift (py_getitem hw_ids 0);
  row ← um_lift (py_setitem row i x);
  hw_ids ← um_lift (py_setitem hw_ids 0 row);
  (if shared then usb_board_update "build.hwids" hw_ids else mret tt);;
  mret hw_ids.

Section ConfigureUsb.
(** The globals [FRAMEWORK_DIR] and [upload_protocol]. *)
Variable FRAMEWORK_DIR : string.
Variable upload_protocol : string.

Definition configure_usb_flags (cpp_defines : list value) : UM unit :=
  let usb_flags : UM unit :=
    d ← (hw ← usb_board_get "build.hwids" (VList [VList [VInt 0; VInt 0]]);
         row ← um_lift (py_getitem hw 0);
         um_lift (py_getitem row 1));
    usb_pid ← usb_board_get "build.arduino.earlephilhower.usb_pid" d;
    d ← (hw ← usb_board_get "build.hwids" (VList [VList [VInt 0; VInt 0]]);
         row ← um_lift (py_getitem hw 0);
         um_lift (py_getitem row 0));
    usb_vid ← usb_board_get "build.arduino.earlephilhower.usb_vid" d;
    d ← usb_board_get "vendor" (VStr "Raspberry Pi");
    usb_manufacturer ←
      usb_board_get "build.arduino.earlephilhower.usb_manufacturer" d;
    d ← usb_board_get "name" (VStr "Pico");
    usb_product ← usb_board_get "build.arduino.earlephilhower.usb_product" d;
    let vidtouse := usb_vid in
    let pidtouse := usb_pid in
    '(vidtouse, pidtouse) ←
      (if String.eqb upload_protocol "picoprobe" then
         mret (vidtouse, VStr "0x0004")
       else if String.eqb upload_protocol "picodebug" then
         set_ram_size (VInt (240 * 1024));;
         mret (VStr "0x1209", VStr "0x2488")
       else mret (vidtouse, pidtouse));
    append_cppdefines
      [ Macro "CFG_TUSB_MCU" (VStr "OPT_MCU_RP2040");
        Macro "USB_VID" usb_vid;
        Macro "USB_PID" usb_pid;
        MacroQuoted "USB_MANUFACTURER" usb_manufacturer;
        MacroQuoted "USB_PRODUCT" usb_product;
        Macro "SERIALUSB_PID" usb_pid ];;
    shared ← (λ s, (inl (bool_decide (is_Some (usb_board s !! "build.hwids"))), s));
    hw_ids ← usb_board_get "build.hwids"
               (VList [VList [VStr "0x2E8A"; VStr "0x00C0"]]);
    hw_ids ← assign_hw_id shared hw_ids 0 vidtouse;
    hw_ids ← assign_hw_id shared hw_ids 1 pidtouse;
    usb_board_update "build.hwids" hw_ids;;
    ram_size ← get_ram_size;
    usb_board_update "upload.maximum_ram_size" ram_size
  in
  if py_in_str "USE_TINYUSB" cpp_defines then
    append_cpppath
      [os_path_join FRAMEWORK_DIR
         ["libraries"; "Adafruit_TinyUSB_Arduino"; "src"; "arduino"]];;
    usb_flags
  else if py_in_str "PIO_FRAMEWORK_ARDUINO_NO_USB" cpp_defines then
    append_cpppath [os_path_join FRAMEWORK_DIR ["tools"; "libpico"]];;
    append_cppdefines [Flag "NO_USB"; Flag "DISABLE_USB_SERIAL"]
  else
    append_cpppath [os_path_join FRAMEWORK_DIR ["tools"; "libpico"]];;
    usb_flags.
End ConfigureUsb.

(** ["%dk" % (ram_size // 1024)], the value substituted for
    __RAM_LENGTH__ in the linker script. *)
Definition ram_length (ram_size : value) : string + item_exn :=
  match ram_size with
  | VInt z => inl (NilZero.string_of_int (Z.to_int (z / 1024)) +:+ "k")
  | _ => inr ItemTypeError
  end.

(** A state to run [configure_usb_flags] in: a board manifest, nothing
    appended yet, and 264 KiB of RAM. *)
Definition usb_fresh (b : gmap string value) : usb_state :=
  UsbState b [] [] (VInt (264 * 1024)).

(** A manifest with build.hwids and a configured product id. *)
Definition board_hwids (hw : value) : gmap string value :=
  {[ "build.hwids" := hw;
     "build.arduino.earlephilhower.usb_pid" := VStr "0x000A" ]}.

(** The integer part of [m * 2^e], for [m] not negative. *)
Definition dyadic_floor (m e : Z) : Z :=
  if 0 <=? e then m * 2 ^ e else m / 2 ^ (- e).

(** A float out of [float_of_ratio]: no NaN, no sign, a mantissa below
    2^53 and an exponent of -1074 at least. *)
Definition plain_float (x : spec_float) : Prop :=
  match x with
  | S754_zero s | S754_infinity s => s = false
  | S754_finite s m e => s = false ∧ Z.pos m < 2 ^ 53 ∧ -1074 ≤ e
  | S754_nan => False
  end.

(** * Properties *)

(** ** Strings *)

Lemma append_cons c (a b : string) : String c a +:+ b = String c (a +:+ b).
Proof. reflexivity. Qed.

Lemma append_nil_l (s : string) : "" +:+ s = s.
Proof. reflexivity. Qed.

Lemma append_nil_r (s : string) : s +:+ "" = s.
Proof.
  induction s as [|c s IH]; [done |]. by rewrite append_cons, IH.
Qed.

Lemma append_assoc (a b c : string) : (a +:+ b) +:+ c = a +:+ b +:+ c.
Proof.
  induction a as [|x a IH]; [done |]. by rewrite !append_cons, IH.
Qed.

Lemma append_eq_nil (a b : string) : a +:+ b = "" → a = "" ∧ b = "".
Proof. destruct a; [done |]. by rewrite append_cons. Qed.

Lemma string_forall_app p (a b : string) :
  string_forall p (a +:+ b) = string_forall p a && string_forall p b.
Proof.
  induction a as [|x a IH]; [done |].
  rewrite append_cons. simpl. rewrite IH. by destruct (p x).
Qed.

Lemma length_append (a b : string) :
  String.length (a +:+ b) = (String.length a + String.length b)%nat.
Proof.
  induction a as [|x a IH]; [done |]. rewrite append_cons. simpl. by rewrite IH.
Qed.

Lemma span_spec p s a b :
  span p s = (a, b) → s = a +:+ b ∧ string_forall p a = true ∧ stops p b.
Proof.
  revert a b. induction s as [|c s IH]; simpl; intros a b H.
  - by inversion H.
  - destruct (p c) eqn:Hc.
    + destruct (span p s) as [a' b'] eqn:Hs. inversion H; subst.
      destruct (IH _ _ eq_refl) as (-> & Ha & Hb).
      rewrite append_cons. simpl. by rewrite Hc.
    + inversion H; subst. simpl. by rewrite Hc.
Qed.

Lemma span_app p (a b : string) :
  string_forall p a = true → stops p b → span p (a +:+ b) = (a, b).
Proof.
  intros Ha Hb. induction a as [|c a IH].
  - rewrite append_nil_l. destruct b as [|c b]; simpl in *; [done | by rewrite Hb].
  - simpl in Ha. apply andb_true_iff in Ha as [Hc Ha].
    rewrite append_cons. simpl. by rewrite Hc, (IH Ha).
Qed.

Lemma span_all p (a : string) : string_forall p a = true → span p a = (a, "").
Proof.
  intros Ha. rewrite <- (append_nil_r a) at 1. by apply span_app.
Qed.

(** The character classes of the expression do not overlap. *)
Lemma unit_letter_not_digit c : is_unit_letter c = true → is_digit c = false.
Proof.
  unfold is_unit_letter. intros H%bool_decide_eq_true.
  repeat (apply elem_of_cons in H as [-> | H]; [done |]).
  by apply elem_of_nil in H.
Qed.

Lemma point_not_digit : is_digit "." = false.
Proof. done. Qed.

Lemma point_not_unit_letter : is_unit_letter "." = false.
Proof. done. Qed.

Lemma newline_not_digit : is_digit newline = false.
Proof. done. Qed.

Lemma newline_not_unit_letter : is_unit_letter newline = false.
Proof. done. Qed.

(** ** The scanner accepts the language of the regular expression *)

Lemma stops_number_follow r :
  stops number_follow r → stops is_digit r ∧ after_point r = None.
Proof.
  destruct r as [|c r]; simpl; [done |]. unfold number_follow.
  intros [-> ->]%orb_false_iff. done.
Qed.

Lemma match_number_sound s n r :
  match_number s = Some (n, r) →
  number_text n ∧ s = n +:+ r ∧ stops is_digit r.
Proof.
  unfold match_number. destruct (span is_digit s) as [d1 r1] eqn:H1.
  apply span_spec in H1 as (-> & Hd1 & Hr1).
  destruct (after_point r1) as [r2|] eqn:Hp.
  - destruct r1 as [|c r1]; [done |]. simpl in Hp.
    destruct (Ascii.eqb c ".") eqn:Hc; [|done].
    apply Ascii.eqb_eq in Hc as ->. injection Hp as ->.
    destruct (span is_digit r2) as [d2 r3] eqn:H2.
    apply span_spec in H2 as (-> & Hd2 & Hr3).
    destruct d2 as [|c2 d2]; [done |]. intros H. inversion H; subst.
    split; [by constructor |]. split; [|done].
    by rewrite !append_assoc.
  - destruct d1 as [|c1 d1]; [done |]. intros H. inversion H; subst.
    split; [by constructor | done].
Qed.

Lemma match_number_complete n r :
  number_text n → stops number_follow r → match_number (n +:+ r) = Some (n, r).
Proof.
  intros Hn [Hr Hp]%stops_number_follow. unfold match_number.
  destruct Hn as [d Hd Hne | d0 d Hd0 Hd Hne].
  - rewrite (span_app _ _ _ Hd Hr), Hp. by destruct d.
  - rewrite !append_assoc. rewrite (span_app _ d0) by done.
    rewrite append_cons, append_nil_l. simpl.
    rewrite (span_app _ _ _ Hd Hr). by destruct d.
Qed.

Lemma at_end_spec tail :
  at_end tail = true ↔ tail = "" ∨ tail = String newline "".
Proof.
  destruct tail as [|c [|c' t]]; simpl.
  - split; auto.
  - rewrite Ascii.eqb_eq. split; [intros ->; by right |].
    intros [? | H]; [done | by inversion H].
  - split; [done | intros [? | ?]; done].
Qed.

Lemma stops_factor_tail f tail :
  string_forall is_unit_letter f = true →
  tail = "" ∨ tail = String newline "" →
  stops number_follow (f +:+ tail) ∧ stops is_unit_letter tail.
Proof.
  intros Hf Ht. split.
  - destruct f as [|c f].
    + rewrite append_nil_l. by destruct Ht as [-> | ->].
    + rewrite append_cons. simpl in *. apply andb_true_iff in Hf as [Hc _].
      unfold number_follow. rewrite (unit_letter_not_digit _ Hc). simpl.
      apply Ascii.eqb_neq. intros ->. by rewrite point_not_unit_letter in Hc.
  - by destruct Ht as [-> | ->].
Qed.

(** The scanner returns a pair exactly for the strings of the language,
    and then the pair of the two groups. *)
Lemma re_findall_match s n f :
  re_findall s = [(n, f)] ↔ regex_match s n f.
Proof.
  unfold re_findall, regex_match. split.
  - destruct (match_number s) as [[n' r]|] eqn:Hm; [|done].
    apply match_number_sound in Hm as (Hn & -> & _).
    destruct (span is_unit_letter r) as [f' tail] eqn:Hs.
    apply span_spec in Hs as (-> & Hf & _).
    destruct (at_end tail) eqn:He; [|done]. intros [= -> ->].
    apply at_end_spec in He as [-> | ->]; rewrite ?append_nil_r; auto.
  - intros (Hn & Hf & Hs).
    assert (∃ tail, s = n +:+ f +:+ tail ∧ (tail = "" ∨ tail = String newline ""))
      as (tail & -> & Ht).
    { destruct Hs as [-> | ->]; [exists "" | exists (String newline "")];
        rewrite ?append_nil_r; auto. }
    destruct (stops_factor_tail f tail Hf Ht) as [H1 H2].
    rewrite (match_number_complete _ _ Hn H1), (span_app _ _ _ Hf H2).
    by rewrite (proj2 (at_end_spec tail) Ht).
Qed.

Lemma re_findall_cases s :
  re_findall s = [] ∨ ∃ n f, re_findall s = [(n, f)].
Proof.
  unfold re_findall. destruct (match_number s) as [[n r]|]; [|by left].
  destruct (span is_unit_letter r) as [f tail].
  destruct (at_end tail); [right; eauto | by left].
Qed.

Lemma re_findall_nil s :
  re_findall s = [] ↔ ∀ n f, ¬ regex_match s n f.
Proof.
  split.
  - intros H n f Hm%re_findall_match. congruence.
  - intros H. destruct (re_findall_cases s) as [? | (n & f & Hm)]; [done |].
    by apply re_findall_match, H in Hm.
Qed.

(** ** Signs of the floats of the parser *)

Lemma binary_round_aux_unsigned m e l :
  unsigned_float (binary_round_aux prec emax false m e l).
Proof.
  unfold binary_round_aux.
  destruct (shr_fexp prec emax m e l) as [mrs' e'].
  destruct (shr_fexp prec emax _ e' loc_Exact) as [mrs'' e''].
  destruct (shr_m mrs''); simpl; [done | | done].
  by destruct (e'' <=? emax - prec).
Qed.

Lemma float_of_ratio_unsigned p q : unsigned_float (float_of_ratio p q).
Proof.
  unfold float_of_ratio. destruct p; [done | |];
    destruct (SFdiv_core_binary prec emax _ 0 q 0) as [[m e] l];
    apply binary_round_aux_unsigned.
Qed.

Lemma binary_normalize_unsigned k :
  0 ≤ k → unsigned_float (binary_normalize prec emax k 0 false).
Proof.
  destruct k as [|k|k]; [done | | lia]. intros _. simpl. unfold binary_round.
  destruct (shl_align k 0 _) as [mz ez]. apply binary_round_aux_unsigned.
Qed.

Lemma SFmul_unsigned x y :
  unsigned_float x → unsigned_float y → unsigned_float (SFmul prec emax x y).
Proof.
  destruct x as [sx|sx| |sx mx ex], y as [sy|sy| |sy my ey]; simpl;
    try done; intros -> ->; try done.
  apply binary_round_aux_unsigned.
Qed.

Lemma int_of_float_unsigned x w n w' :
  unsigned_float x → int_of_float x w = Return n w' → 0 ≤ n ∧ w' = w.
Proof.
  destruct x as [s|s| |s m e]; simpl; try done.
  - intros _ [= <- <-]. done.
  - intros -> [= <- <-]. split; [|done].
    destruct e as [|e|e]; [lia | | ].
    + apply Z.mul_nonneg_nonneg; [lia |]. apply Z.pow_nonneg. lia.
    + apply Z.div_pos; [lia |]. apply Z.pow_pos_nonneg; lia.
Qed.


(** ** Magnitudes of the floats of the parser *)

Lemma digits2_pos_bound p : Z.pos p < 2 ^ Z.pos (digits2_pos p).
Proof.
  induction p as [p IH|p IH|]; simpl digits2_pos;
    rewrite ?Pos2Z.inj_succ, ?Z.pow_succ_r by lia; lia.
Qed.

Lemma Zdigits2_bound m : 0 ≤ m → m < 2 ^ Zdigits2 m.
Proof.
  destruct m as [|p|p]; simpl; [lia | | lia]. intros _. apply digits2_pos_bound.
Qed.

Lemma shr_1_m mrs : 0 ≤ shr_m mrs → shr_m (shr_1 mrs) = shr_m mrs / 2.
Proof.
  destruct mrs as [m r s]. cbn [shr_1 shr_m].
  destruct m as [|[p|p|]|p]; cbn [shr_m]; intros Hm.
  - done.
  - rewrite Pos2Z.inj_xI. apply Z.div_unique with 1; lia.
  - rewrite Pos2Z.inj_xO. apply Z.div_unique with 0; lia.
  - done.
  - lia.
Qed.

Lemma pow2_xI p : 2 ^ Z.pos p~1 = 2 * 2 ^ Z.pos p * 2 ^ Z.pos p.
Proof.
  replace (Z.pos p~1) with (1 + Z.pos p + Z.pos p) by lia.
  rewrite !Z.pow_add_r by lia. done.
Qed.

Lemma pow2_xO p : 2 ^ Z.pos p~0 = 2 ^ Z.pos p * 2 ^ Z.pos p.
Proof.
  replace (Z.pos p~0) with (Z.pos p + Z.pos p) by lia.
  by rewrite Z.pow_add_r by lia.
Qed.

Lemma iter_shr_1_m p mrs :
  0 ≤ shr_m mrs →
  shr_m (SpecFloat.iter_pos shr_1 p mrs) = shr_m mrs / 2 ^ Z.pos p.
Proof.
  revert mrs. induction p as [p IH|p IH|]; intros mrs Hm;
    cbn [SpecFloat.iter_pos].
  - assert (0 ≤ shr_m (shr_1 mrs)) as H1
      by (rewrite shr_1_m by done; apply Z.div_pos; lia).
    assert (0 < 2 ^ Z.pos p) as Hp by (apply Z.pow_pos_nonneg; lia).
    assert (0 ≤ shr_m (SpecFloat.iter_pos shr_1 p (shr_1 mrs))) as H2.
    { rewrite IH by done. apply Z.div_pos; lia. }
    rewrite IH, IH, shr_1_m by done.
    rewrite !Z.div_div by lia. rewrite pow2_xI. f_equal. lia.
  - assert (0 < 2 ^ Z.pos p) as Hp by (apply Z.pow_pos_nonneg; lia).
    assert (0 ≤ shr_m (SpecFloat.iter_pos shr_1 p mrs)) as H2.
    { rewrite IH by done. apply Z.div_pos; lia. }
    rewrite IH, IH by done.
    rewrite !Z.div_div by lia. by rewrite pow2_xO.
  - by apply shr_1_m.
Qed.

Lemma shr_record_of_loc_m m l : shr_m (shr_record_of_loc m l) = m.
Proof. by destruct l as [|[]]. Qed.

(** After [shr_fexp] a mantissa that is not negative fits the precision. *)
Lemma shr_fexp_bound m e l :
  0 ≤ m → 0 ≤ shr_m (shr_fexp prec emax m e l).1 < 2 ^ prec.
Proof.
  intros Hm. pose proof (Zdigits2_bound m Hm) as Hd.
  assert (0 ≤ Zdigits2 m) as Hd0 by (by destruct m).
  unfold shr_fexp, shr.
  destruct (fexp prec emax (Zdigits2 m + e) - e) as [|n|n] eqn:Hn;
    cbn [fst]; rewrite ?iter_shr_1_m; rewrite shr_record_of_loc_m; try done.
  - unfold fexp in Hn. split; [done |].
    eapply Z.lt_le_trans; [exact Hd |]. apply Z.pow_le_mono_r; lia.
  - assert (0 < 2 ^ Z.pos n) as Hp by (apply Z.pow_pos_nonneg; lia).
    split; [apply Z.div_pos; lia |].
    apply Z.div_lt_upper_bound; [done |].
    rewrite <- Z.pow_add_r by (unfold prec; lia).
    eapply Z.lt_le_trans; [exact Hd |]. apply Z.pow_le_mono_r; [lia |].
    unfold fexp in Hn. lia.
  - unfold fexp in Hn. split; [done |].
    eapply Z.lt_le_trans; [exact Hd |]. apply Z.pow_le_mono_r; lia.
Qed.

Lemma round_nearest_even_nonneg m l : 0 ≤ m → 0 ≤ round_nearest_even m l.
Proof. destruct l as [|[]]; simpl; try done; [destruct (Z.even m) |]; lia. Qed.

Lemma binary_round_aux_bounded s m e l :
  0 ≤ m → bounded_float (binary_round_aux prec emax s m e l).
Proof.
  intros Hm. unfold binary_round_aux.
  pose proof (shr_fexp_bound m e l Hm) as H1.
  destruct (shr_fexp prec emax m e l) as [mrs' e']. cbn [fst] in H1.
  pose proof (shr_fexp_bound (round_nearest_even (shr_m mrs') (loc_of_shr_record mrs'))
                e' loc_Exact) as H2.
  destruct (shr_fexp prec emax _ e' loc_Exact) as [mrs'' e'']. cbn [fst] in H2.
  destruct (shr_m mrs'') as [|m''|m''] eqn:Hm''; simpl; [done | | done].
  destruct (e'' <=? emax - prec) eqn:He; simpl; [|done].
  split; [|lia]. apply H2, round_nearest_even_nonneg. lia.
Qed.

Lemma SFmul_bounded x y : bounded_float (SFmul prec emax x y).
Proof.
  destruct x as [sx|sx| |sx mx ex], y as [sy|sy| |sy my ey]; simpl; try done.
  by apply binary_round_aux_bounded.
Qed.

Lemma max_float_int_room : max_float_int + 4096 < float_overflow_threshold.
Proof. by apply Z.ltb_lt; vm_compute. Qed.

Lemma int_of_float_bounded x w n w' :
  bounded_float x → int_of_float x w = Return n w' → Z.abs n ≤ max_float_int.
Proof.
  assert (0 < max_float_int) as Hpos by (by apply Z.ltb_lt; vm_compute).
  destruct x as [s|s| |s m e]; simpl; try done.
  - intros _ [= <- <-]. lia.
  - unfold prec, emax. intros [Hm He] [= <- <-].
    assert (Z.abs (if s then - (match e with
                                | Z.neg k => Z.pos m / 2 ^ Z.pos k
                                | _ => Z.pos m * 2 ^ e
                                end)
                   else match e with
                        | Z.neg k => Z.pos m / 2 ^ Z.pos k
                        | _ => Z.pos m * 2 ^ e
                        end)
            = match e with
              | Z.neg k => Z.pos m / 2 ^ Z.pos k
              | _ => Z.pos m * 2 ^ e
              end) as ->.
    { assert (0 ≤ match e with
                  | Z.neg k => Z.pos m / 2 ^ Z.pos k
                  | _ => Z.pos m * 2 ^ e
                  end).
      { destruct e as [|e|e]; [lia | |].
        - apply Z.mul_nonneg_nonneg; [lia |]. apply Z.pow_nonneg. lia.
        - apply Z.div_pos; [lia |]. apply Z.pow_pos_nonneg; lia. }
      destruct s; lia. }
    unfold max_float_int.
    assert (1 ≤ 2 ^ 971) as H971 by (by apply Z.leb_le; vm_compute).
    destruct e as [|e|e].
    + rewrite Z.mul_1_r. nia.
    + apply Z.mul_le_mono_nonneg; [lia | lia | |].
      * apply Z.pow_nonneg. lia.
      * apply Z.pow_le_mono_r; lia.
    + assert (0 < 2 ^ Z.pos e) as Hp by (apply Z.pow_pos_nonneg; lia).
      assert (Z.pos m / 2 ^ Z.pos e ≤ Z.pos m).
      { apply Z.div_le_upper_bound; [done |]. nia. }
      nia.
Qed.

(** ** Running a computation *)

Lemma bind_Return {A B} (c : M A) (f : A → M B) w a w' :
  c w = Return a w' → (c ≫= f) w = f a w'.
Proof. unfold mbind, M_bind. by intros ->. Qed.

Lemma bind_Raised {A B} (c : M A) (f : A → M B) w e w' :
  c w = Raised e w' → (c ≫= f) w = Raised e w'.
Proof. unfold mbind, M_bind. by intros ->. Qed.

Lemma bind_Exited {A B} (c : M A) (f : A → M B) w st w' :
  c w = Exited st w' → (c ≫= f) w = Exited st w'.
Proof. unfold mbind, M_bind. by intros ->. Qed.

Lemma bind_Return_inv {A B} (c : M A) (f : A → M B) w b w'' :
  (c ≫= f) w = Return b w'' → ∃ a w', c w = Return a w' ∧ f a w' = Return b w''.
Proof. unfold mbind, M_bind. destruct (c w); [eauto | done | done]. Qed.

(** ** The parser on its two paths *)

(** A string outside the language of the expression is reported on the
    error stream and read as 0. *)
Lemma convert_unparsable s w :
  (∀ n f, ¬ regex_match s n f) →
  convert_size_expression_to_int (VStr s) w
  = Return 0 (add_stderr w [MsgParseError s]).
Proof.
  intros H%re_findall_nil. unfold convert_size_expression_to_int.
  by rewrite H.
Qed.

(** A string of the language goes through [float], the table of factors,
    the product and [int], in this order. *)
Lemma convert_parsed s n f w :
  regex_match s n f →
  convert_size_expression_to_int (VStr s) w
  = (number ← py_float n;
     k ← dict_get conversion_factors (upper f);
     k ← float_of_int k;
     int_of_float (SFmul prec emax number k)) w.
Proof.
  intros H%re_findall_match. unfold convert_size_expression_to_int.
  by rewrite H.
Qed.

Lemma py_float_number n w :
  number_text n → py_float n w = Return (number_float n) w.
Proof.
  intros [d Hd Hne | d0 d Hd0 Hd Hne]; unfold py_float, number_float.
  - rewrite (span_all _ _ Hd). simpl. by destruct d.
  - rewrite (span_app _ d0) by done.
    rewrite append_cons, append_nil_l. simpl. rewrite Hd. simpl.
    destruct (String.eqb (d0 +:+ d) "") eqn:He; [|done].
    apply String.eqb_eq, append_eq_nil in He as [_ ->]. done.
Qed.

Lemma py_float_unsigned s w x w' :
  py_float s w = Return x w' → unsigned_float x ∧ w' = w.
Proof.
  unfold py_float. destruct (span is_digit s) as [i r].
  destruct r as [|c r].
  - destruct i; [done |]. intros [= <- <-].
    split; [apply float_of_ratio_unsigned | done].
  - destruct (after_point (String c r)) as [f|]; [|done].
    destruct (_ && _); [|done]. intros [= <- <-].
    split; [apply float_of_ratio_unsigned | done].
Qed.

Lemma conversion_factors_lookup key k :
  conversion_factors !! key = Some k → k = 1 ∨ k = 1024 ∨ k = 1024 * 1024.
Proof.
  unfold conversion_factors. intros H.
  repeat (apply lookup_insert_Some in H as [[_ <-] | [_ H]]; [by auto |]).
  apply lookup_singleton_Some in H as [_ <-]. auto.
Qed.

Lemma convert_returns_unsigned v w n w' :
  convert_size_expression_to_int v w = Return n w' → 0 ≤ n.
Proof.
  destruct v as [|z|s|l]; try done. unfold convert_size_expression_to_int.
  destruct (re_findall s) as [|[number factor] rest].
  - intros [= <- _]. done.
  - intros (x & w1 & Hx & H)%bind_Return_inv.
    apply py_float_unsigned in Hx as [Hx ->].
    apply bind_Return_inv in H as (k & w2 & Hk & H).
    unfold dict_get in Hk.
    destruct (conversion_factors !! upper factor) as [k'|] eqn:Hl; [|done].
    injection Hk as -> ->.
    apply bind_Return_inv in H as (y & w3 & Hy & H).
    unfold float_of_int in Hy. destruct (float_convertible k); [|done].
    injection Hy as <- <-.
    eapply int_of_float_unsigned; [|exact H].
    apply SFmul_unsigned; [done |]. apply binary_normalize_unsigned.
    apply conversion_factors_lookup in Hl. lia.
Qed.

(** ** Computations that leave the world alone *)

Lemma pure_mret {A} (a : A) : pure_comp (mret a).
Proof. by exists (inl a). Qed.

Lemma pure_raise {A} e : pure_comp (raise (A:=A) e).
Proof. by exists (inr e). Qed.

Lemma pure_bind {A B} (c : M A) (f : A → M B) :
  pure_comp c → (∀ a, pure_comp (f a)) → pure_comp (c ≫= f).
Proof.
  intros [[a|e] Hc] Hf.
  - destruct (Hf a) as [r Hr]. exists r. intros w.
    by rewrite (bind_Return _ _ _ _ _ (Hc w)).
  - exists (inr e). intros w. by rewrite (bind_Raised _ _ _ _ _ (Hc w)).
Qed.

Lemma pure_py_float s : pure_comp (py_float s).
Proof.
  unfold py_float. destruct (span is_digit s) as [i r].
  destruct r as [|c r].
  - destruct i; [apply pure_raise | apply pure_mret].
  - destruct (after_point (String c r)) as [f|]; [|apply pure_raise].
    destruct (_ && _); [apply pure_mret | apply pure_raise].
Qed.

Lemma pure_dict_get d k : pure_comp (dict_get d k).
Proof.
  unfold dict_get. destruct (d !! k); [apply pure_mret | apply pure_raise].
Qed.

Lemma pure_float_of_int z : pure_comp (float_of_int z).
Proof.
  unfold float_of_int.
  destruct (float_convertible z); [apply pure_mret | apply pure_raise].
Qed.

Lemma pure_int_of_float x : pure_comp (int_of_float x).
Proof.
  destruct x; simpl; first [apply pure_mret | apply pure_raise].
Qed.

Lemma add_stderr_nil w : add_stderr w [] = w.
Proof. destruct w. unfold add_stderr. simpl. by rewrite app_nil_r. Qed.

(** The parser does to every world the same: it returns one number or
    raises one exception, after the same messages to the error stream. *)
Lemma convert_uniform v :
  ∃ (r : Z + exn) (l : list message), ∀ w,
    convert_size_expression_to_int v w
    = match r with
      | inl n => Return n (add_stderr w l)
      | inr e => Raised e (add_stderr w l)
      end.
Proof.
  assert (∀ c : M Z, pure_comp c →
    ∃ (r : Z + exn) (l : list message), ∀ w,
      c w = match r with
            | inl n => Return n (add_stderr w l)
            | inr e => Raised e (add_stderr w l)
            end) as Hpure.
  { intros c [r Hr]. exists r, []. intros w.
    rewrite add_stderr_nil, Hr. by destruct r. }
  destruct v as [|z|s|l]; try (apply Hpure, pure_raise).
  unfold convert_size_expression_to_int.
  destruct (re_findall s) as [|[number factor] rest].
  - by exists (inl 0), [MsgParseError s].
  - apply Hpure. apply pure_bind; [apply pure_py_float |]. intros x.
    apply pure_bind; [apply pure_dict_get |]. intros k.
    apply pure_bind; [apply pure_float_of_int |]. intros y.
    apply pure_int_of_float.
Qed.

Lemma convert_frame v w n w1 :
  convert_size_expression_to_int v w = Return n w1 →
  ∃ l, w1 = add_stderr w l.
Proof.
  destruct (convert_uniform v) as (r & l & H). rewrite H.
  destruct r; [|done]. intros [= _ <-]. eauto.
Qed.

Lemma convert_returns_bounded v w n w' :
  convert_size_expression_to_int v w = Return n w' → n ≤ max_float_int.
Proof.
  assert (0 < max_float_int) as Hpos by (by apply Z.ltb_lt; vm_compute).
  destruct v as [|z|s|l]; try done. unfold convert_size_expression_to_int.
  destruct (re_findall s) as [|[number factor] rest].
  - intros [= <- _]. lia.
  - intros (x & w1 & Hx & H)%bind_Return_inv.
    apply bind_Return_inv in H as (k & w2 & Hk & H).
    apply bind_Return_inv in H as (y & w3 & Hy & H).
    apply int_of_float_bounded in H; [lia | apply SFmul_bounded].
Qed.

(** ** The partition calculator on its two paths *)

Lemma megabytes_Return x w :
  float_convertible x = true → megabytes x w = Return (mb x) w.
Proof. intros H. unfold megabytes, float_of_int. by rewrite H. Qed.

Lemma float_convertible_iff x :
  float_convertible x = true ↔ Z.abs x < float_overflow_threshold.
Proof. unfold float_convertible. apply Z.ltb_lt. Qed.

Ltac run_unfold :=
  unfold mbind, M_bind, mret, M_ret, raise, env_Exit, write_stderr, print,
    board_update, env_set, env_Depends; simpl.

Ltac run_step :=
  erewrite bind_Return; [| first
    [ eassumption
    | apply megabytes_Return, float_convertible_iff;
      pose proof max_float_int_room; lia
    | reflexivity ] ].

(** The start of every run that gets to the arithmetic: the two options
    are read, the size is parsed, and the summary is printed. *)
Lemma populate_prefix w flash fs w1 :
  board w !! "upload.maximum_size" = Some (VInt flash) →
  convert_size_expression_to_int
    (default (VStr "0MB") (board w !! "build.filesystem_size")) w
  = Return fs w1 →
  Z.abs flash < float_overflow_threshold →
  Z.abs (flash - 4096 - fs) < float_overflow_threshold →
  populate_sketch_partition_info w
  = ((if flash - 4096 - fs <=? 0
      then write_stderr (MsgTooLarge (flash - 4096 - fs));; env_Exit (-1)
      else mret tt);;
     board_update "upload.maximum_size" (VInt (flash - 4096 - fs));;
     env_set "PICO_FLASH_LENGTH" (VInt (flash - 4096 - fs));;
     env_set "PICO_EEPROM_START" (VInt (0x10000000 + flash - 4096));;
     env_set "PICO_FS_START" (VInt (0x10000000 + flash - 4096 - fs));;
     env_set "PICO_FS_END" (VInt (0x10000000 + flash - 4096));;
     print (MsgValues (flash - 4096 - fs) (flash - 4096 - fs)
              (0x10000000 + flash - 4096)
              (0x10000000 + flash - 4096 - fs)
              (0x10000000 + flash - 4096)))
      (World (board w1) (env w1) (depends w1)
             (stdout w1 ++ summary flash fs) (stderr w1)).
Proof.
  intros Hflash Hconv Hf Hm.
  pose proof (convert_returns_unsigned _ _ _ _ Hconv) as Hfs0.
  pose proof (convert_returns_bounded _ _ _ _ Hconv) as Hfs1.
  unfold populate_sketch_partition_info.
  erewrite bind_Return; [| unfold board_get; rewrite Hflash; reflexivity].
  erewrite bind_Return; [| reflexivity].
  run_step. run_step. run_step. run_step. run_step. run_step.
  run_step. run_step.
  unfold summary. simpl. rewrite <- !app_assoc. reflexivity.
Qed.

Lemma populate_success w flash fs w1 :
  board w !! "upload.maximum_size" = Some (VInt flash) →
  convert_size_expression_to_int
    (default (VStr "0MB") (board w !! "build.filesystem_size")) w
  = Return fs w1 →
  0 < flash - 4096 - fs →
  flash < float_overflow_threshold →
  populate_sketch_partition_info w = Return tt (layout_published w1 flash fs).
Proof.
  intros Hflash Hconv Hpos Hf.
  pose proof (convert_returns_unsigned _ _ _ _ Hconv) as Hfs0.
  erewrite populate_prefix; [| done | done | lia | lia].
  destruct (flash - 4096 - fs <=? 0) eqn:Hle; [lia |].
  unfold layout_published, summary. run_unfold.
  by rewrite <- app_assoc.
Qed.

Lemma populate_fatal w flash fs w1 :
  board w !! "upload.maximum_size" = Some (VInt flash) →
  convert_size_expression_to_int
    (default (VStr "0MB") (board w !! "build.filesystem_size")) w
  = Return fs w1 →
  flash - 4096 - fs ≤ 0 →
  0 ≤ flash < float_overflow_threshold →
  populate_sketch_partition_info w = Exited (-1) (build_aborted w1 flash fs).
Proof.
  intros Hflash Hconv Hneg Hf.
  pose proof (convert_returns_unsigned _ _ _ _ Hconv) as Hfs0.
  pose proof (convert_returns_bounded _ _ _ _ Hconv) as Hfs1.
  pose proof max_float_int_room.
  erewrite populate_prefix; [| done | done | lia | lia].
  destruct (flash - 4096 - fs <=? 0) eqn:Hle; [| lia].
  unfold build_aborted. by run_unfold.
Qed.

(** ** Rounding that loses nothing *)

Lemma digits2_pos_lower p : 2 ^ (Z.pos (digits2_pos p) - 1) ≤ Z.pos p.
Proof.
  induction p as [p IH|p IH|]; simpl digits2_pos; [| |done].
  - rewrite Pos2Z.inj_succ. replace (Z.succ (Z.pos (digits2_pos p)) - 1)
      with (Z.succ (Z.pos (digits2_pos p) - 1)) by lia.
    rewrite Z.pow_succ_r by lia. lia.
  - rewrite Pos2Z.inj_succ. replace (Z.succ (Z.pos (digits2_pos p)) - 1)
      with (Z.succ (Z.pos (digits2_pos p) - 1)) by lia.
    rewrite Z.pow_succ_r by lia. lia.
Qed.

(** The number of binary digits is fixed by the two powers of two around
    the number. *)
Lemma Zdigits2_unique m d :
  0 < m → 2 ^ (d - 1) ≤ m < 2 ^ d → 0 < d → Zdigits2 m = d.
Proof.
  intros Hm [Hlo Hhi] Hd. destruct m as [|p|p]; [lia | | lia]. simpl.
  pose proof (digits2_pos_bound p) as Hb.
  pose proof (digits2_pos_lower p) as Hl.
  set (k := Z.pos (digits2_pos p)) in *.
  assert (0 < k) by (unfold k; lia).
  destruct (Z.lt_trichotomy k d) as [Hlt | [Heq | Hgt]]; [| done |].
  - assert (2 ^ k ≤ 2 ^ (d - 1)) by (apply Z.pow_le_mono_r; lia). lia.
  - assert (2 ^ d ≤ 2 ^ (k - 1)) by (apply Z.pow_le_mono_r; lia). lia.
Qed.

Lemma Zdigits2_shift m t :
  0 < m → 0 ≤ t → Zdigits2 (m * 2 ^ t) = Zdigits2 m + t.
Proof.
  intros Hm Ht.
  assert (0 < 2 ^ t) as Hp by (apply Z.pow_pos_nonneg; lia).
  destruct m as [|p|p]; [lia | | lia].
  pose proof (digits2_pos_bound p) as Hb.
  pose proof (digits2_pos_lower p) as Hl.
  apply Zdigits2_unique; [nia | | simpl; lia]. simpl Zdigits2.
  split.
  - replace (Z.pos (digits2_pos p) + t - 1)
      with (Z.pos (digits2_pos p) - 1 + t) by lia.
    rewrite Z.pow_add_r by lia. nia.
  - rewrite Z.pow_add_r by lia. nia.
Qed.

Lemma shr_1_even M :
  0 ≤ M →
  shr_1 (Build_shr_record (M * 2) false false) = Build_shr_record M false false.
Proof.
  intros HM. destruct M as [|q|q]; [done | | lia].
  replace (Z.pos q * 2) with (Z.pos q~0) by lia. done.
Qed.

Lemma iter_shr_1_exact p M :
  0 ≤ M →
  SpecFloat.iter_pos shr_1 p (Build_shr_record (M * 2 ^ Z.pos p) false false)
  = Build_shr_record M false false.
Proof.
  revert M. induction p as [p IH|p IH|]; intros M HM;
    cbn [SpecFloat.iter_pos].
  - assert (0 < 2 ^ Z.pos p) as Hp by (apply Z.pow_pos_nonneg; lia).
    rewrite pow2_xI.
    replace (M * (2 * 2 ^ Z.pos p * 2 ^ Z.pos p))
      with (M * 2 ^ Z.pos p * 2 ^ Z.pos p * 2) by lia.
    rewrite shr_1_even by nia. rewrite IH by nia. by apply IH.
  - assert (0 < 2 ^ Z.pos p) as Hp by (apply Z.pow_pos_nonneg; lia).
    rewrite pow2_xO.
    replace (M * (2 ^ Z.pos p * 2 ^ Z.pos p))
      with (M * 2 ^ Z.pos p * 2 ^ Z.pos p) by lia.
    rewrite IH by nia. by apply IH.
  - change (2 ^ 1) with 2. by apply shr_1_even.
Qed.


Lemma shr_fexp_noshift m e :
  fexp prec emax (Zdigits2 m + e) - e ≤ 0 →
  shr_fexp prec emax m e loc_Exact = (Build_shr_record m false false, e).
Proof.
  intros H. unfold shr_fexp, shr.
  destruct (fexp prec emax (Zdigits2 m + e) - e); [done | lia | done].
Qed.

Lemma shr_fexp_shift M e n :
  0 ≤ M → 0 < n →
  fexp prec emax (Zdigits2 (M * 2 ^ n) + e) - e = n →
  shr_fexp prec emax (M * 2 ^ n) e loc_Exact
  = (Build_shr_record M false false, e + n).
Proof.
  intros HM Hn H. unfold shr_fexp, shr. rewrite H.
  destruct n as [|p|p]; [lia | | lia].
  cbn [shr_record_of_loc]. by rewrite iter_shr_1_exact.
Qed.

Lemma Zdigits2_range N : 0 < N < 2 ^ 53 → 1 ≤ Zdigits2 N ≤ 53.
Proof.
  intros [H0 H1]. destruct N as [|p|p]; [lia | | lia]. simpl.
  pose proof (digits2_pos_lower p) as Hl. split; [lia |].
  destruct (Z.le_gt_cases (Z.pos (digits2_pos p)) 53) as [|Hgt]; [done |].
  assert (2 ^ 53 ≤ 2 ^ (Z.pos (digits2_pos p) - 1))
    by (apply Z.pow_le_mono_r; lia).
  lia.
Qed.

(** Rounding a number that 53 bits hold changes nothing but the form. *)
Lemma binary_round_aux_exact m e N :
  0 < N < 2 ^ 53 → e ≤ 0 → m = N * 2 ^ (- e) →
  holds_int (binary_round_aux prec emax false m e loc_Exact) N.
Proof.
  intros HN He ->.
  pose proof (Zdigits2_range N HN) as Hd.
  assert (Zdigits2 (N * 2 ^ (- e)) = Zdigits2 N - e) as Hdm
    by (rewrite Zdigits2_shift by lia; lia).
  assert (fexp prec emax (Zdigits2 N) = Zdigits2 N - 53) as Hfexp
    by (unfold fexp, emin, prec, emax; lia).
  assert (0 < 2 ^ (- e)) as Hpe by (apply Z.pow_pos_nonneg; lia).
  unfold binary_round_aux.
  destruct (Z.le_gt_cases (Zdigits2 N - 53 - e) 0) as [Hn | Hn].
  - rewrite shr_fexp_noshift
      by (rewrite Hdm; replace (Zdigits2 N - e + e) with (Zdigits2 N) by lia;
          rewrite Hfexp; lia).
    cbn [shr_m loc_of_shr_record round_nearest_even].
    rewrite shr_fexp_noshift
      by (rewrite Hdm; replace (Zdigits2 N - e + e) with (Zdigits2 N) by lia;
          rewrite Hfexp; lia).
    cbn [shr_m]. destruct (N * 2 ^ (- e)) as [|p|p] eqn:Hp; [nia | | nia].
    assert ((e <=? emax - prec) = true) as -> by (unfold emax, prec; lia).
    simpl. lia.
  - set (n := Zdigits2 N - 53 - e) in *.
    assert (N * 2 ^ (- e) = N * 2 ^ (53 - Zdigits2 N) * 2 ^ n) as Hsplit.
    { rewrite <- Z.mul_assoc, <- Z.pow_add_r by lia. do 2 f_equal. lia. }
    assert (0 < 2 ^ (53 - Zdigits2 N)) as Hp1 by (apply Z.pow_pos_nonneg; lia).
    rewrite Hsplit.
    rewrite shr_fexp_shift; [| nia | lia |].
    2: { rewrite <- Hsplit, Hdm.
         replace (Zdigits2 N - e + e) with (Zdigits2 N) by lia.
         rewrite Hfexp. lia. }
    cbn [shr_m loc_of_shr_record round_nearest_even].
    rewrite shr_fexp_noshift.
    2: { rewrite Zdigits2_shift by lia.
         replace (Zdigits2 N + (53 - Zdigits2 N) + (e + n)) with (Zdigits2 N) by lia.
         rewrite Hfexp. lia. }
    cbn [shr_m].
    destruct (N * 2 ^ (53 - Zdigits2 N)) as [|p|p] eqn:Hp; [nia | | nia].
    assert ((e + n <=? emax - prec) = true) as -> by (unfold emax, prec; lia).
    simpl. split; [lia |]. rewrite <- Hp. do 2 f_equal. lia.
Qed.

Lemma SFdiv_core_binary_by_1 p :
  0 < p →
  ∃ s, 0 ≤ s ∧ SFdiv_core_binary prec emax p 0 1 0 = (p * 2 ^ s, - s, loc_Exact).
Proof.
  intros Hp. unfold SFdiv_core_binary.
  set (e' := Z.min _ _).
  assert (e' ≤ 0) as He by (unfold e'; lia).
  exists (- e'). split; [lia |].
  replace (0 - 0 - e') with (- e') by lia.
  assert (match - e' with
          | 0 => p
          | Z.pos _ => Z.shiftl p (- e')
          | Z.neg _ => 0
          end = p * 2 ^ (- e')) as ->.
  { destruct (- e') as [|q|q] eqn:Hq; [lia | | lia].
    by rewrite Z.shiftl_mul_pow2 by lia. }
  destruct (Z.div_eucl (p * 2 ^ (- e')) 1) as [q r] eqn:Hdiv.
  assert (q = p * 2 ^ (- e') / 1) as Hq by (unfold Z.div; by rewrite Hdiv).
  assert (r = (p * 2 ^ (- e')) mod 1) as Hr by (unfold Z.modulo; by rewrite Hdiv).
  rewrite Z.div_1_r in Hq. rewrite Z.mod_1_r in Hr. subst q r.
  by rewrite Z.opp_involutive.
Qed.

Lemma float_of_ratio_whole p :
  0 ≤ p < 2 ^ 53 → holds_int (float_of_ratio p 1) p.
Proof.
  intros Hp. destruct (decide (p = 0)) as [-> | Hne]; [done |].
  unfold float_of_ratio. destruct p as [|q|q]; [done | | lia].
  destruct (SFdiv_core_binary_by_1 (Z.pos q)) as (s & Hs & ->); [lia |].
  apply binary_round_aux_exact; [lia | lia |]. by rewrite Z.opp_involutive.
Qed.

Lemma SFmul_holds_int x y N k :
  holds_int x N → holds_int y k → 0 ≤ N → 0 < k → N * k < 2 ^ 53 →
  holds_int (SFmul prec emax x y) (N * k).
Proof.
  intros Hx Hy HN Hk Hlt.
  destruct x as [sx|sx| |sx mx ex]; try done;
    destruct y as [sy|sy| |sy my ey]; try done; simpl in *.
  - lia.
  - destruct sy; [done |]. subst N. lia.
  - destruct sx; [done |]. lia.
  - destruct sx, sy; try done. simpl.
    destruct Hx as [Hex Hmx], Hy as [Hey Hmy].
    assert (0 < 2 ^ (- ex)) by (apply Z.pow_pos_nonneg; lia).
    apply binary_round_aux_exact; [nia | lia |].
    rewrite Pos2Z.inj_mul, Hmx, Hmy.
    replace (- (ex + ey)) with (- ex + - ey) by lia.
    rewrite Z.pow_add_r by lia. lia.
Qed.

Lemma int_of_float_holds_int x N w :
  holds_int x N → int_of_float x w = Return N w.
Proof.
  destruct x as [s|s| |s m e]; simpl; try done.
  - by intros ->.
  - destruct s; [done |]. intros [He Hm].
    destruct e as [|e|e]; [| lia |].
    + simpl in Hm. unfold mret, M_ret. f_equal. lia.
    + unfold mret, M_ret. f_equal. rewrite Hm.
      replace (- Z.neg e) with (Z.pos e) by lia.
      apply Z.div_mul. apply Z.pow_nonzero; lia.
Qed.

Lemma digit_value_range c : is_digit c = true → 0 ≤ digit_value c ≤ 9.
Proof.
  unfold is_digit, digit_value. intros [H1 H2]%andb_true_iff.
  apply N.leb_le in H1, H2. lia.
Qed.

Lemma digits_value_nonneg d acc :
  string_forall is_digit d = true → 0 ≤ acc → 0 ≤ digits_value acc d.
Proof.
  revert acc. induction d as [|c d IH]; intros acc Hd Hacc; simpl in *; [done |].
  apply andb_true_iff in Hd as [Hc Hd]. apply IH; [done |].
  pose proof (digit_value_range c Hc). lia.
Qed.

Lemma unit_spellings_factor u k :
  (u, k) ∈ unit_spellings →
  string_forall is_unit_letter u = true ∧
  conversion_factors !! upper u = Some k.
Proof.
  unfold unit_spellings. intros Hu.
  repeat (apply elem_of_cons in Hu as [[= -> ->] | Hu]; [by split |]).
  by apply elem_of_nil in Hu.
Qed.

Lemma factor_holds_int k :
  k = 1 ∨ k = 1024 ∨ k = 1024 * 1024 →
  float_convertible k = true ∧
  holds_int (binary_normalize prec emax k 0 false) k.
Proof. intros [-> | [-> | ->]]; split; by vm_compute. Qed.

(** ** Multiplying a float by a power of two, and truncating *)

Lemma shr_fexp_emin m e l :
  fexp prec emax (Zdigits2 m + e) ≤ (shr_fexp prec emax m e l).2.
Proof.
  unfold shr_fexp, shr.
  destruct (fexp prec emax (Zdigits2 m + e) - e) as [|n|n] eqn:Hn;
    cbn [snd]; lia.
Qed.

Lemma fexp_emin e : -1074 ≤ fexp prec emax e.
Proof. unfold fexp, emin, prec, emax. lia. Qed.

Lemma binary_round_aux_emin s m e l :
  match binary_round_aux prec emax s m e l with
  | S754_finite _ _ e' => -1074 ≤ e'
  | _ => True
  end.
Proof.
  unfold binary_round_aux.
  destruct (shr_fexp prec emax m e l) as [mrs' e'].
  pose proof (shr_fexp_emin (round_nearest_even (shr_m mrs') (loc_of_shr_record mrs'))
                e' loc_Exact) as H.
  pose proof (fexp_emin (Zdigits2 (round_nearest_even (shr_m mrs')
                                     (loc_of_shr_record mrs')) + e')) as H'.
  destruct (shr_fexp prec emax _ e' loc_Exact) as [mrs'' e'']. cbn [snd] in H.
  destruct (shr_m mrs''); simpl; [done | | done].
  destruct (e'' <=? emax - prec); simpl; [lia | done].
Qed.

Lemma binary_round_aux_not_nan s m e l :
  0 ≤ m → binary_round_aux prec emax s m e l ≠ S754_nan.
Proof.
  intros Hm. unfold binary_round_aux.
  pose proof (shr_fexp_bound m e l Hm) as H1.
  destruct (shr_fexp prec emax m e l) as [mrs' e']. cbn [fst] in H1.
  pose proof (shr_fexp_bound (round_nearest_even (shr_m mrs') (loc_of_shr_record mrs'))
                e' loc_Exact) as H2.
  destruct (shr_fexp prec emax _ e' loc_Exact) as [mrs'' e'']. cbn [fst] in H2.
  assert (0 ≤ shr_m mrs'') as H3 by (apply H2, round_nearest_even_nonneg; lia).
  destruct (shr_m mrs'') as [|p|p]; [done | | lia].
  by destruct (e'' <=? emax - prec).
Qed.

Lemma SFdiv_core_binary_nonneg p q :
  0 ≤ p → 0 < q → 0 ≤ (SFdiv_core_binary prec emax p 0 q 0).1.1.
Proof.
  intros Hp Hq. unfold SFdiv_core_binary.
  set (e' := Z.min _ _). set (m' := match 0 - 0 - e' with 0 => p | Z.pos _ => _ | Z.neg _ => 0 end).
  assert (0 ≤ m') as Hm'.
  { unfold m'. destruct (0 - 0 - e'); [done | | done].
    by apply Z.shiftl_nonneg. }
  destruct (Z.div_eucl m' q) as [a b] eqn:Hdiv. cbn [fst].
  assert (a = m' / q) as -> by (unfold Z.div; by rewrite Hdiv).
  apply Z.div_pos; lia.
Qed.


Lemma float_of_ratio_plain p q : 0 ≤ p → 0 < q → plain_float (float_of_ratio p q).
Proof.
  intros Hp Hq. unfold float_of_ratio. destruct p as [|p|p]; [done | | lia].
  pose proof (SFdiv_core_binary_nonneg (Z.pos p) q Hp Hq) as Hm.
  destruct (SFdiv_core_binary prec emax (Z.pos p) 0 q 0) as [[m e] l].
  cbn [fst] in Hm.
  pose proof (binary_round_aux_unsigned m e l) as H1.
  pose proof (binary_round_aux_bounded false m e l Hm) as H2.
  pose proof (binary_round_aux_emin false m e l) as H3.
  pose proof (binary_round_aux_not_nan false m e l Hm) as H4.
  destruct (binary_round_aux prec emax false m e l); simpl in *; try done.
  unfold prec in H2. split; [done |]. split; [apply H2 | done].
Qed.

Lemma number_float_plain n : number_text n → plain_float (number_float n).
Proof.
  intros [d Hd Hne | d0 d Hd0 Hd Hne]; unfold number_float.
  - rewrite (span_all _ _ Hd). simpl.
    apply float_of_ratio_plain; [by apply digits_value_nonneg | lia].
  - rewrite (span_app _ d0) by done.
    rewrite append_cons, append_nil_l. simpl.
    apply float_of_ratio_plain.
    + apply digits_value_nonneg; [| done].
      rewrite string_forall_app. by rewrite Hd0, Hd.
    + apply Z.pow_pos_nonneg; lia.
Qed.

(** The float of a unit's factor is [2^52] at the exponent [log2 k - 52]. *)
Lemma factor_float k :
  k = 1 ∨ k = 1024 ∨ k = 1024 * 1024 →
  float_convertible k = true ∧
  k = 2 ^ Z.log2 k ∧ 0 ≤ Z.log2 k ≤ 52 ∧
  binary_normalize prec emax k 0 false
  = S754_finite false 4503599627370496 (Z.log2 k - 52).
Proof. intros [-> | [-> | ->]]; repeat split; by vm_compute. Qed.

(** Multiplying by a power of two is exact: the product is the same
    mantissa times [2^52], in another form, or it overflows. *)
Lemma SFmul_pow2 mx ex j :
  Z.pos mx < 2 ^ 53 → -1074 ≤ ex → 0 ≤ j ≤ 52 →
  (SFmul prec emax (S754_finite false mx ex)
     (S754_finite false 4503599627370496 (j - 52)) = S754_infinity false ∧
   971 < ex + j) ∨
  ∃ m' e' t,
    SFmul prec emax (S754_finite false mx ex)
      (S754_finite false 4503599627370496 (j - 52)) = S754_finite false m' e' ∧
    0 ≤ t ∧ e' = ex + j - 52 + t ∧ Z.pos m' * 2 ^ t = Z.pos mx * 2 ^ 52.
Proof.
  intros Hmx Hex Hj. cbn [SFmul xorb].
  rewrite Pos2Z.inj_mul. change (Z.pos 4503599627370496) with (2 ^ 52).
  pose proof (Zdigits2_range (Z.pos mx) (conj (Pos2Z.is_pos mx) Hmx)) as Hd.
  set (dx := Zdigits2 (Z.pos mx)) in *.
  set (e := ex + (j - 52)).
  assert (Zdigits2 (Z.pos mx * 2 ^ 52) = dx + 52) as HD
    by (by rewrite Zdigits2_shift by lia).
  set (F := fexp prec emax (dx + 52 + e)).
  assert (F = Z.max (dx + ex + j - 53) (-1074)) as HF
    by (unfold F, fexp, emin, prec, emax, e; lia).
  unfold binary_round_aux.
  destruct (Z.le_gt_cases (F - e) 0) as [Hn | Hn].
  - rewrite shr_fexp_noshift by (rewrite HD; fold F; lia).
    cbn [shr_m loc_of_shr_record round_nearest_even].
    rewrite shr_fexp_noshift by (rewrite HD; fold F; lia).
    cbn [shr_m].
    destruct (Z.pos mx * 2 ^ 52) as [|p|p] eqn:Hp; [lia | | lia].
    destruct (e <=? emax - prec) eqn:He.
    + right. exists p, e, 0. split; [done |].
      split; [done |]. split; [unfold e; lia |]. rewrite <- Hp. lia.
    + left. split; [done |]. unfold emax, prec, e in *. lia.
  - set (n := F - e) in *.
    assert (n ≤ 52) as Hn52 by (unfold n, e; lia).
    assert (0 < 2 ^ (52 - n)) as Hp1 by (apply Z.pow_pos_nonneg; lia).
    assert (Z.pos mx * 2 ^ 52 = Z.pos mx * 2 ^ (52 - n) * 2 ^ n) as Hsplit.
    { rewrite <- Z.mul_assoc, <- Z.pow_add_r by lia. do 2 f_equal. lia. }
    rewrite Hsplit.
    rewrite shr_fexp_shift; [| nia | lia |].
    2: { rewrite <- Hsplit, HD. fold F. done. }
    cbn [shr_m loc_of_shr_record round_nearest_even].
    rewrite shr_fexp_noshift.
    2: { rewrite Zdigits2_shift by lia. fold dx.
         replace (dx + (52 - n) + (e + n)) with (dx + 52 + e) by lia.
         fold F. lia. }
    cbn [shr_m].
    destruct (Z.pos mx * 2 ^ (52 - n)) as [|p|p] eqn:Hp; [nia | | nia].
    destruct (e + n <=? emax - prec) eqn:He.
    + right. exists p, (e + n), n. split; [done |].
      split; [lia |]. split; [unfold e; lia |]. lia.
    + left. split; [done |]. unfold emax, prec, e in *. lia.
Qed.

Lemma int_of_float_dyadic_floor m e w :
  int_of_float (S754_finite false m e) w = Return (dyadic_floor (Z.pos m) e) w.
Proof.
  unfold dyadic_floor. simpl. unfold mret, M_ret. f_equal.
  destruct e as [|e|e]; simpl; try done.
Qed.

Lemma dyadic_floor_scale m e t :
  0 ≤ t → dyadic_floor (m * 2 ^ t) (e - t) = dyadic_floor m e.
Proof.
  intros Ht. unfold dyadic_floor.
  assert (0 < 2 ^ t) as Hpt by (apply Z.pow_pos_nonneg; lia).
  destruct (0 <=? e) eqn:He, (0 <=? e - t) eqn:Het.
  - rewrite <- Z.mul_assoc, <- Z.pow_add_r by lia. do 2 f_equal. lia.
  - replace (m * 2 ^ t) with (m * 2 ^ e * 2 ^ (- (e - t))).
    + apply Z.div_mul. apply Z.pow_nonzero; lia.
    + rewrite <- Z.mul_assoc, <- Z.pow_add_r by lia. do 2 f_equal. lia.
  - lia.
  - replace (2 ^ (- (e - t))) with (2 ^ (- e) * 2 ^ t)
      by (rewrite <- Z.pow_add_r by lia; f_equal; lia).
    apply Z.div_mul_cancel_r; [apply Z.pow_nonzero; lia | lia].
Qed.

Lemma dyadic_floor_spec m e :
  if 0 <=? e then dyadic_floor m e = m * 2 ^ e
  else dyadic_floor m e * 2 ^ (- e) ≤ m < (dyadic_floor m e + 1) * 2 ^ (- e).
Proof.
  unfold dyadic_floor. destruct (0 <=? e) eqn:He; [done |].
  assert (0 < 2 ^ (- e)) as Hp by (apply Z.pow_pos_nonneg; lia).
  pose proof (Z.div_mod m (2 ^ (- e)) ltac:(lia)) as Hdm.
  pose proof (Z.mod_pos_bound m (2 ^ (- e)) Hp) as Hmod.
  nia.
Qed.

Lemma convert_runs n u k w :
  number_text n → (u, k) ∈ unit_spellings →
  convert_size_expression_to_int (VStr (n +:+ u)) w
  = int_of_float
      (SFmul prec emax (number_float n) (binary_normalize prec emax k 0 false))
      w.
Proof.
  intros Hn Hu. apply unit_spellings_factor in Hu as [Hf Hk].
  rewrite (convert_parsed (n +:+ u) n u) by (repeat split; auto).
  rewrite (bind_Return _ _ _ _ _ (py_float_number n w Hn)).
  erewrite bind_Return; [| unfold dict_get; rewrite Hk; reflexivity].
  erewrite bind_Return; [reflexivity |].
  unfold float_of_int.
  apply conversion_factors_lookup, factor_float in Hk as [-> _]. done.
Qed.

(** * The claims *)

(** ** The size-expression parser *)

(** The part of C1 that the code keeps: a string outside the language of
    the regular expression, such as "garbage" and the empty string, makes
    the parser write one diagnostic and return 0. *)
Lemma convert_garbage w :
  convert_size_expression_to_int (VStr "garbage") w
  = Return 0 (add_stderr w [MsgParseError "garbage"]).
Proof. reflexivity. Qed.

Lemma convert_empty w :
  convert_size_expression_to_int (VStr "") w
  = Return 0 (add_stderr w [MsgParseError ""]).
Proof. reflexivity. Qed.

Lemma convert_bare_unit w :
  convert_size_expression_to_int (VStr "MB") w
  = Return 0 (add_stderr w [MsgParseError "MB"]).
Proof. reflexivity. Qed.

(** C1, where the code departs from it: the second group of the regular
    expression takes any run of the letters m, k and b, so a number
    followed by a run that is no key of [conversion_factors] is matched,
    and the lookup raises [KeyError]; nothing is written to the error
    stream and no 0 is returned. *)
Theorem convert_unlisted_unit_raises n f w :
  number_text n →
  string_forall is_unit_letter f = true →
  conversion_factors !! upper f = None →
  convert_size_expression_to_int (VStr (n +:+ f)) w = Raised KeyError w.
Proof.
  intros Hn Hf Hk.
  rewrite (convert_parsed (n +:+ f) n f) by (repeat split; auto).
  rewrite (bind_Return _ _ _ _ _ (py_float_number n w Hn)).
  apply bind_Raised. unfold dict_get. by rewrite Hk.
Qed.

Lemma convert_unlisted_unit_raises_2BB :
  number_text "2" ∧
  string_forall is_unit_letter "BB" = true ∧
  conversion_factors !! upper "BB" = None ∧
  convert_size_expression_to_int (VStr "2BB") (fresh_world ∅)
  = Raised KeyError (fresh_world ∅).
Proof.
  assert (number_text "2") as Hn by (by apply number_whole).
  split; [exact Hn |]. split; [reflexivity |]. split; [reflexivity |].
  exact (convert_unlisted_unit_raises "2" "BB" (fresh_world ∅) Hn eq_refl eq_refl).
Defined.

(** C4: on a number followed by one of the six units, in either case, the
    parser returns [int] of the float product of [float] of the number
    and the unit's factor, 1 for none and B, 1024 for K and KB, 1024*1024
    for M and MB. With [float] of the number being [m * 2^e], what it
    returns is the integer part of [m * 2^e * factor]: the product itself
    when [e] is not negative, and otherwise the [r] with
    [r * 2^(-e) <= m * factor < (r + 1) * 2^(-e)]; it raises OverflowError
    only where that product is beyond the floats. It returns 2097152 on
    "2MB", 524288 on "512K", 0 on "0" and 1572864 on "1.5MB", and drops
    the fraction of a product that has one: 102 on "0.1K", 1 on "1.5",
    0 on "0.5", 1 on "1.9b", 1048 on "0.001MB"; the number is rounded to
    a float before it is multiplied, so twenty nines after the point
    give 1. Nothing is written. *)
Theorem convert_multiplies_by_unit :
  (∀ n u k w,
     number_text n → (u, k) ∈ unit_spellings →
     convert_size_expression_to_int (VStr (n +:+ u)) w
     = int_of_float
         (SFmul prec emax (number_float n) (binary_normalize prec emax k 0 false))
         w) ∧
  (∀ n u k w,
     number_text n → (u, k) ∈ unit_spellings →
     match number_float n with
     | S754_zero _ =>
         convert_size_expression_to_int (VStr (n +:+ u)) w = Return 0 w
     | S754_finite _ m e =>
         (∃ r,
            convert_size_expression_to_int (VStr (n +:+ u)) w = Return r w ∧
            if 0 <=? e then r = Z.pos m * k * 2 ^ e
            else r * 2 ^ (- e) ≤ Z.pos m * k < (r + 1) * 2 ^ (- e)) ∨
         (convert_size_expression_to_int (VStr (n +:+ u)) w
          = Raised OverflowError w ∧
          971 < e + Z.log2 k)
     | S754_infinity _ =>
         convert_size_expression_to_int (VStr (n +:+ u)) w
         = Raised OverflowError w
     | S754_nan => False
     end) ∧
  (∀ w, convert_size_expression_to_int (VStr "2MB") w = Return (2 * 1024 * 1024) w) ∧
  (∀ w, convert_size_expression_to_int (VStr "512K") w = Return (512 * 1024) w) ∧
  (∀ w, convert_size_expression_to_int (VStr "0") w = Return 0 w) ∧
  (∀ w, convert_size_expression_to_int (VStr "1.5MB") w = Return 1572864 w) ∧
  (∀ w, convert_size_expression_to_int (VStr "0.1K") w = Return 102 w) ∧
  (∀ w, convert_size_expression_to_int (VStr "1.5") w = Return 1 w) ∧
  (∀ w, convert_size_expression_to_int (VStr "0.5") w = Return 0 w) ∧
  (∀ w, convert_size_expression_to_int (VStr "1.9b") w = Return 1 w) ∧
  (∀ w, convert_size_expression_to_int (VStr "0.001MB") w = Return 1048 w) ∧
  (∀ w, convert_size_expression_to_int (VStr "0.99999999999999999999") w
        = Return 1 w).
Proof.
  split; [apply convert_runs |]. split; [| by repeat split].
  intros n u k w Hn Hu. rewrite (convert_runs n u k w Hn Hu).
  apply unit_spellings_factor in Hu as [_ Hk].
  apply conversion_factors_lookup, factor_float in Hk as (_ & Hk2 & Hj & ->).
  pose proof (number_float_plain n Hn) as Hx.
  destruct (number_float n) as [s|s| |s m e]; simpl in Hx.
  - done.
  - by subst s.
  - done.
  - destruct Hx as (-> & Hm & He).
    destruct (SFmul_pow2 m e (Z.log2 k) Hm He Hj)
      as [[-> Hov] | (m' & e' & t & -> & Ht & He' & Hmt)].
    + right. split; [done | lia].
    + left. exists (dyadic_floor (Z.pos m') e').
      split; [apply int_of_float_dyadic_floor |].
      assert (dyadic_floor (Z.pos m') e' = dyadic_floor (Z.pos m * k) e) as ->.
      { rewrite <- (dyadic_floor_scale (Z.pos m') e' t Ht), Hmt.
        replace (e' - t) with (e + Z.log2 k - 52) by lia.
        rewrite (dyadic_floor_scale (Z.pos m) (e + Z.log2 k) 52) by lia.
        rewrite <- (dyadic_floor_scale (Z.pos m) (e + Z.log2 k) (Z.log2 k))
          by lia.
        rewrite <- Hk2. f_equal. lia. }
      pose proof (dyadic_floor_spec (Z.pos m * k) e) as Hspec.
      destruct (0 <=? e); [done | done].
Qed.

Lemma convert_multiplies_by_unit_witness :
  number_text "0.1" ∧ ("K", 1024) ∈ unit_spellings ∧
  number_float "0.1" = S754_finite false 7205759403792794 (-56) ∧
  (∃ r,
     convert_size_expression_to_int (VStr "0.1K") (fresh_world ∅)
     = Return r (fresh_world ∅) ∧
     r * 2 ^ 56 ≤ 7205759403792794 * 1024 < (r + 1) * 2 ^ 56) ∧
  convert_size_expression_to_int (VStr "1.5mb") (fresh_world ∅)
  = Return 1572864 (fresh_world ∅).
Proof.
  assert (number_text "0.1") as Hn by (by apply (number_point "0" "1")).
  assert (number_text "1.5") as Hn' by (by apply (number_point "1" "5")).
  assert (("K", 1024) ∈ unit_spellings) as Hu
    by (apply list_elem_of_In; simpl; auto 20).
  assert (("mb", 1024 * 1024) ∈ unit_spellings) as Hu'
    by (apply list_elem_of_In; simpl; auto 20).
  split; [exact Hn |]. split; [exact Hu |]. split; [reflexivity |].
  split.
  - pose proof (proj1 (proj2 convert_multiplies_by_unit) "0.1" "K" 1024
                  (fresh_world ∅) Hn Hu) as H.
    change (number_float "0.1")
      with (S754_finite false 7205759403792794 (-56)) in H.
    cbn beta iota in H.
    destruct H as [(r & Hr & Hineq) | [Hraise _]].
    + exists r. split; [exact Hr | exact Hineq].
    + vm_compute in Hraise. discriminate Hraise.
  - exact (proj1 convert_multiplies_by_unit "1.5" "mb" (1024 * 1024)
             (fresh_world ∅) Hn' Hu').
Defined.

(** C9: whenever the parser returns, the number it returns is not
    negative. *)
Theorem convert_returns_nonnegative v w n w' :
  convert_size_expression_to_int v w = Return n w' → 0 ≤ n.
Proof. apply convert_returns_unsigned. Qed.

Lemma convert_returns_nonnegative_witness :
  convert_size_expression_to_int (VStr "512K") (fresh_world ∅)
  = Return 524288 (fresh_world ∅) ∧ 0 ≤ 524288.
Proof.
  split; [reflexivity |].
  exact (convert_returns_nonnegative (VStr "512K") (fresh_world ∅) 524288
           (fresh_world ∅) eq_refl).
Defined.

(** ** The partition calculator *)

Lemma lookup_published w flash fs :
  let w' := layout_published w flash fs in
  board w' !! "upload.maximum_size" = Some (VInt (flash - 4096 - fs)) ∧
  env w' !! "PICO_FLASH_LENGTH" = Some (VInt (flash - 4096 - fs)) ∧
  env w' !! "PICO_EEPROM_START" = Some (VInt (0x10000000 + flash - 4096)) ∧
  env w' !! "PICO_FS_START" = Some (VInt (0x10000000 + flash - 4096 - fs)) ∧
  env w' !! "PICO_FS_END" = Some (VInt (0x10000000 + flash - 4096)).
Proof. unfold layout_published. simpl. by simplify_map_eq. Qed.

Lemma convert_0MB w :
  convert_size_expression_to_int (VStr "0MB") w = Return 0 w.
Proof. reflexivity. Qed.

(** C2: from the flash size and the parsed file-system size, a run that
    passes the check stores flash_size - 4096 - fs_bytes as the new
    upload.maximum_size and as the flash length, 0x10000000 + flash_size -
    4096 as the EEPROM start and as the file-system end, and 0x10000000 +
    flash_size - 4096 - fs_bytes as the file-system start; with 2 MiB of
    flash and the file-system size "0MB", given or left out, the sketch
    size is 2 MiB - 4096 and the file system starts where it ends. *)
Theorem populate_layout_formulas :
  (∀ w flash fs w1,
     board w !! "upload.maximum_size" = Some (VInt flash) →
     convert_size_expression_to_int
       (default (VStr "0MB") (board w !! "build.filesystem_size")) w
     = Return fs w1 →
     0 < flash - 4096 - fs →
     flash < float_overflow_threshold →
     ∃ w', populate_sketch_partition_info w = Return tt w' ∧
       board w' !! "upload.maximum_size" = Some (VInt (flash - 4096 - fs)) ∧
       env w' !! "PICO_FLASH_LENGTH" = Some (VInt (flash - 4096 - fs)) ∧
       env w' !! "PICO_EEPROM_START" = Some (VInt (0x10000000 + flash - 4096)) ∧
       env w' !! "PICO_FS_START" = Some (VInt (0x10000000 + flash - 4096 - fs)) ∧
       env w' !! "PICO_FS_END" = Some (VInt (0x10000000 + flash - 4096))) ∧
  (∀ w,
     board w !! "upload.maximum_size" = Some (VInt (2 * 1024 * 1024)) →
     board w !! "build.filesystem_size" = Some (VStr "0MB") ∨
     board w !! "build.filesystem_size" = None →
     ∃ w', populate_sketch_partition_info w = Return tt w' ∧
       board w' !! "upload.maximum_size" = Some (VInt (2 * 1024 * 1024 - 4096)) ∧
       env w' !! "PICO_FLASH_LENGTH" = Some (VInt (2 * 1024 * 1024 - 4096)) ∧
       is_Some (env w' !! "PICO_FS_START") ∧
       env w' !! "PICO_FS_START" = env w' !! "PICO_FS_END").
Proof.
  split.
  - intros w flash fs w1 Hflash Hconv Hpos Hf.
    exists (layout_published w1 flash fs).
    split; [by apply populate_success | apply lookup_published].
  - intros w Hflash Hfs.
    assert (convert_size_expression_to_int
              (default (VStr "0MB") (board w !! "build.filesystem_size")) w
            = Return 0 w) as Hconv.
    { destruct Hfs as [-> | ->]; apply convert_0MB. }
    exists (layout_published w (2 * 1024 * 1024) 0).
    split.
    + apply populate_success; [done | done | lia |].
      by apply Z.ltb_lt; vm_compute.
    + destruct (lookup_published w (2 * 1024 * 1024) 0) as (H1 & H2 & H3 & H4 & H5).
      split; [exact H1 |]. split; [exact H2 |].
      split; [rewrite H4; eauto |]. by rewrite H4, H5.
Qed.

Lemma populate_layout_formulas_witness :
  ∃ w', populate_sketch_partition_info (world_2MB "1MB") = Return tt w' ∧
    board w' !! "upload.maximum_size" = Some (VInt 1044480) ∧
    env w' !! "PICO_FLASH_LENGTH" = Some (VInt 1044480) ∧
    env w' !! "PICO_EEPROM_START" = Some (VInt 270528512) ∧
    env w' !! "PICO_FS_START" = Some (VInt 269479936) ∧
    env w' !! "PICO_FS_END" = Some (VInt 270528512).
Proof.
  exact (proj1 populate_layout_formulas (world_2MB "1MB") (2 * 1024 * 1024) (1024 * 1024) (world_2MB "1MB")
           eq_refl eq_refl eq_refl eq_refl).
Defined.

(** C3: when flash_size - 4096 - fs_bytes is not positive, the run writes
    the diagnostic with that size to the error stream and leaves through
    [env.Exit] with the status -1, which is not 0; the board configuration
    and the construction variables are as they were before the run. *)
Theorem populate_invalid_layout_exits w flash fs w1 :
  board w !! "upload.maximum_size" = Some (VInt flash) →
  convert_size_expression_to_int
    (default (VStr "0MB") (board w !! "build.filesystem_size")) w
  = Return fs w1 →
  flash - 4096 - fs ≤ 0 →
  0 ≤ flash < float_overflow_threshold →
  ∃ status w',
    populate_sketch_partition_info w = Exited status w' ∧
    status ≠ 0 ∧
    stderr w' = stderr w1 ++ [MsgTooLarge (flash - 4096 - fs)] ∧
    board w' = board w ∧
    env w' = env w.
Proof.
  intros Hflash Hconv Hneg Hf.
  exists (-1), (build_aborted w1 flash fs).
  split; [by apply populate_fatal |]. split; [done |].
  apply convert_frame in Hconv as [l ->]. done.
Qed.

Lemma populate_invalid_layout_exits_witness :
  ∃ status w',
    populate_sketch_partition_info (world_2MB "2MB") = Exited status w' ∧
    status ≠ 0 ∧
    stderr w' = stderr (world_2MB "2MB") ++ [MsgTooLarge (-4096)] ∧
    board w' = board (world_2MB "2MB") ∧
    env w' = env (world_2MB "2MB").
Proof.
  refine (populate_invalid_layout_exits (world_2MB "2MB") (2 * 1024 * 1024) (2 * 1024 * 1024) (world_2MB "2MB")
            eq_refl eq_refl _ (conj _ eq_refl)); by vm_compute.
Defined.

(** C5: whenever flash_size - 4096 - fs_bytes is positive, the run returns
    and the values it publishes satisfy fs_end - fs_start = fs_bytes and
    eeprom_start = fs_end. *)
Theorem populate_filesystem_extent w flash fs w1 :
  board w !! "upload.maximum_size" = Some (VInt flash) →
  convert_size_expression_to_int
    (default (VStr "0MB") (board w !! "build.filesystem_size")) w
  = Return fs w1 →
  0 < flash - 4096 - fs →
  flash < float_overflow_threshold →
  ∃ w' eeprom_start fs_start fs_end,
    populate_sketch_partition_info w = Return tt w' ∧
    env w' !! "PICO_EEPROM_START" = Some (VInt eeprom_start) ∧
    env w' !! "PICO_FS_START" = Some (VInt fs_start) ∧
    env w' !! "PICO_FS_END" = Some (VInt fs_end) ∧
    fs_end - fs_start = fs ∧
    eeprom_start = fs_end.
Proof.
  intros Hflash Hconv Hpos Hf.
  destruct (lookup_published w1 flash fs) as (_ & _ & H3 & H4 & H5).
  eexists _, _, _, _.
  split; [by apply populate_success |].
  split; [exact H3 |]. split; [exact H4 |]. split; [exact H5 |].
  split; lia.
Qed.

Lemma populate_filesystem_extent_witness :
  ∃ w' eeprom_start fs_start fs_end,
    populate_sketch_partition_info (world_2MB "512K") = Return tt w' ∧
    env w' !! "PICO_EEPROM_START" = Some (VInt eeprom_start) ∧
    env w' !! "PICO_FS_START" = Some (VInt fs_start) ∧
    env w' !! "PICO_FS_END" = Some (VInt fs_end) ∧
    fs_end - fs_start = 512 * 1024 ∧
    eeprom_start = fs_end.
Proof.
  exact (populate_filesystem_extent (world_2MB "512K") (2 * 1024 * 1024) (512 * 1024) (world_2MB "512K")
           eq_refl eq_refl eq_refl eq_refl).
Defined.

(** C8: a run that passes the check overwrites upload.maximum_size with
    flash_size - 4096 - fs_bytes and changes no other option of the board
    configuration; it sets the four construction variables that the
    linker-script command reads, and no other. *)
Theorem populate_overwrites_maximum_size w flash fs w1 :
  board w !! "upload.maximum_size" = Some (VInt flash) →
  convert_size_expression_to_int
    (default (VStr "0MB") (board w !! "build.filesystem_size")) w
  = Return fs w1 →
  0 < flash - 4096 - fs →
  flash < float_overflow_threshold →
  ∃ w',
    populate_sketch_partition_info w = Return tt w' ∧
    board w' = <["upload.maximum_size" := VInt (flash - 4096 - fs)]> (board w) ∧
    (∀ path, path ≠ "upload.maximum_size" → board w' !! path = board w !! path) ∧
    env w' !! "PICO_FLASH_LENGTH" = Some (VInt (flash - 4096 - fs)) ∧
    env w' !! "PICO_EEPROM_START" = Some (VInt (0x10000000 + flash - 4096)) ∧
    env w' !! "PICO_FS_START" = Some (VInt (0x10000000 + flash - 4096 - fs)) ∧
    env w' !! "PICO_FS_END" = Some (VInt (0x10000000 + flash - 4096)) ∧
    (∀ name, name ∉ published_names → env w' !! name = env w !! name).
Proof.
  intros Hflash Hconv Hpos Hf.
  destruct (lookup_published w1 flash fs) as (_ & H2 & H3 & H4 & H5).
  exists (layout_published w1 flash fs).
  split; [by apply populate_success |].
  apply convert_frame in Hconv as [l ->].
  split; [done |].
  split; [intros path Hp; simpl; by rewrite lookup_insert_ne |].
  split; [exact H2 |]. split; [exact H3 |]. split; [exact H4 |].
  split; [exact H5 |].
  intros name Hn. unfold published_names in Hn. simpl.
  rewrite !lookup_insert_ne; [done | set_solver..].
Qed.

Lemma populate_overwrites_maximum_size_witness :
  ∃ w',
    populate_sketch_partition_info (world_2MB "1MB") = Return tt w' ∧
    board w' = <["upload.maximum_size" := VInt 1044480]> (board (world_2MB "1MB")) ∧
    (∀ path, path ≠ "upload.maximum_size" → board w' !! path = board (world_2MB "1MB") !! path) ∧
    env w' !! "PICO_FLASH_LENGTH" = Some (VInt 1044480) ∧
    env w' !! "PICO_EEPROM_START" = Some (VInt 270528512) ∧
    env w' !! "PICO_FS_START" = Some (VInt 269479936) ∧
    env w' !! "PICO_FS_END" = Some (VInt 270528512) ∧
    (∀ name, name ∉ published_names → env w' !! name = env (world_2MB "1MB") !! name).
Proof.
  exact (populate_overwrites_maximum_size (world_2MB "1MB") (2 * 1024 * 1024) (1024 * 1024) (world_2MB "1MB")
           eq_refl eq_refl eq_refl eq_refl).
Defined.

(** C7 as the spec has it fails: with 2 MiB of flash and a file system of
    "2MB" the run leaves through [env.Exit], and the three lines of the
    summary are on the output stream by then. *)
Lemma summary_printed_before_exit :
  ∃ w',
    populate_sketch_partition_info (world_2MB "2MB") = Exited (-1) w' ∧
    stdout w'
    = [ MsgFlashSize (mb (2 * 1024 * 1024));
        MsgSketchSize (mb (-4096));
        MsgFilesystemSize (mb (2 * 1024 * 1024)) ].
Proof.
  exists (build_aborted (world_2MB "2MB") (2 * 1024 * 1024) (2 * 1024 * 1024)).
  split; by vm_compute.
Qed.

(** C7, amended: the three lines of the summary are printed before the
    check, on the failing path as on the passing one; the line with the
    computed values follows them on the passing path alone. *)
Theorem summary_precedes_check w flash fs w1 :
  board w !! "upload.maximum_size" = Some (VInt flash) →
  convert_size_expression_to_int
    (default (VStr "0MB") (board w !! "build.filesystem_size")) w
  = Return fs w1 →
  0 ≤ flash < float_overflow_threshold →
  ∃ w',
    world_of (populate_sketch_partition_info w) = w' ∧
    if flash - 4096 - fs <=? 0
    then ending_of (populate_sketch_partition_info w) = Exiting (-1) ∧
         emitted (stdout w) (stdout w') = summary flash fs
    else ending_of (populate_sketch_partition_info w) = Returned ∧
         emitted (stdout w) (stdout w')
         = summary flash fs
           ++ [MsgValues (flash - 4096 - fs) (flash - 4096 - fs)
                 (0x10000000 + flash - 4096)
                 (0x10000000 + flash - 4096 - fs)
                 (0x10000000 + flash - 4096)].
Proof.
  intros Hflash Hconv Hf. eexists. split; [reflexivity |].
  pose proof (convert_frame _ _ _ _ Hconv) as [l ->].
  destruct (flash - 4096 - fs <=? 0) eqn:Hle.
  - rewrite (populate_fatal _ _ _ _ Hflash Hconv) by lia.
    split; [done |]. unfold emitted. simpl. by rewrite drop_app_length.
  - rewrite (populate_success _ _ _ _ Hflash Hconv) by lia.
    split; [done |]. unfold emitted. simpl. by rewrite drop_app_length.
Qed.

Lemma summary_precedes_check_witness :
  ∃ w',
    world_of (populate_sketch_partition_info (world_2MB "2MB")) = w' ∧
    ending_of (populate_sketch_partition_info (world_2MB "2MB")) = Exiting (-1) ∧
    emitted (stdout (world_2MB "2MB")) (stdout w')
    = summary (2 * 1024 * 1024) (2 * 1024 * 1024).
Proof.
  refine (summary_precedes_check (world_2MB "2MB") (2 * 1024 * 1024)
            (2 * 1024 * 1024) (world_2MB "2MB") eq_refl eq_refl
            (conj _ eq_refl)).
  by vm_compute.
Defined.

(** ** The statement that selects the linker script *)

(** C10: with a linker script of its own in the board configuration the
    statement does nothing, so nothing is parsed, checked or printed and
    upload.maximum_size stays as it is; with none, or an empty one, the
    calculator runs, and the dependency on the generated script and its
    path follow. *)
Theorem partition_only_without_ldscript :
  (∀ w v,
     board w !! "build.ldscript" = Some v → truthy v = true →
     select_linker_script w = Return tt w) ∧
  (∀ w,
     board w !! "build.ldscript" = None ∨
     board w !! "build.ldscript" = Some (VStr "") →
     select_linker_script w
     = (populate_sketch_partition_info;;
        env_Depends "$BUILD_DIR/${PROGNAME}.elf" memmap_default_ld;;
        env_set "LDSCRIPT_PATH" (VStr memmap_default_ld)) w).
Proof.
  split.
  - intros w v Hv Ht. unfold select_linker_script.
    erewrite bind_Return; [| unfold board_get_default; rewrite Hv; reflexivity].
    simpl. by rewrite Ht.
  - intros w Hv. unfold select_linker_script.
    erewrite bind_Return; [| reflexivity].
    by destruct Hv as [-> | ->].
Qed.

Lemma partition_only_without_ldscript_witness :
  select_linker_script world_custom_ldscript = Return tt world_custom_ldscript ∧
  ∃ w',
    select_linker_script (world_2MB "1MB") = Return tt w' ∧
    board w' !! "upload.maximum_size" = Some (VInt 1044480) ∧
    env w' !! "LDSCRIPT_PATH" = Some (VStr "$BUILD_DIR/memmap_default.ld").
Proof.
  split.
  - exact (proj1 partition_only_without_ldscript world_custom_ldscript
             (VStr "custom.ld") eq_refl eq_refl).
  - exists (world_of (select_linker_script (world_2MB "1MB"))).
    split; [| split; by vm_compute].
    rewrite (proj2 partition_only_without_ldscript (world_2MB "1MB")
               (or_introl eq_refl)).
    by vm_compute.
Defined.

(** ** Two runs of the partition calculator *)

Lemma megabytes_cases x w :
  megabytes x w
  = if float_convertible x then Return (mb x) w else Raised OverflowError w.
Proof. unfold megabytes, float_of_int. by destruct (float_convertible x). Qed.

Ltac run_cbn :=
  cbn [world_of ending_of add_stderr stdout stderr board env depends
       print write_stderr env_Exit board_update env_set mret M_ret raise as_int].

(** C6: what a run does is fixed by its inputs, the two options it reads.
    From two worlds whose board configurations agree on
    upload.maximum_size and on build.filesystem_size, the runs end the
    same way, add the same messages to either stream and, when they
    return, leave the same upload.maximum_size and the same four
    construction variables: nothing else is carried from one call to
    another. *)
Theorem populate_depends_on_two_options w w' :
  board w !! "upload.maximum_size" = board w' !! "upload.maximum_size" →
  board w !! "build.filesystem_size" = board w' !! "build.filesystem_size" →
  let o := populate_sketch_partition_info w in
  let o' := populate_sketch_partition_info w' in
  ending_of o = ending_of o' ∧
  emitted (stdout w) (stdout (world_of o))
  = emitted (stdout w') (stdout (world_of o')) ∧
  emitted (stderr w) (stderr (world_of o))
  = emitted (stderr w') (stderr (world_of o')) ∧
  (ending_of o = Returned →
   board (world_of o) !! "upload.maximum_size"
   = board (world_of o') !! "upload.maximum_size" ∧
   ∀ name, name ∈ published_names →
     env (world_of o) !! name = env (world_of o') !! name).
Proof.
  intros H1 H2. unfold populate_sketch_partition_info.
  unfold board_get, board_get_default, mbind, M_bind.
  rewrite <- H1. unfold emitted.
  destruct (board w !! "upload.maximum_size") as [fv|]; cbn beta iota.
  2: { run_cbn. by rewrite !drop_all. }
  rewrite <- H2.
  destruct (convert_uniform (default (VStr "0MB")
              (board w !! "build.filesystem_size"))) as (r & l & Hc).
  rewrite !Hc.
  destruct r as [n|e]; cbn beta iota.
  2: { run_cbn. by rewrite !drop_all, !drop_app_length. }
  destruct fv as [|flash|s|vs]; run_cbn;
    try (by rewrite !drop_all, !drop_app_length).
  rewrite !megabytes_cases.
  destruct (float_convertible flash); run_cbn;
    [| by rewrite !drop_all, !drop_app_length].
  rewrite !megabytes_cases.
  destruct (float_convertible (flash - 4096 - n)); run_cbn;
    [| by rewrite !drop_app_length].
  rewrite !megabytes_cases.
  destruct (float_convertible n); run_cbn;
    [| by rewrite <- !app_assoc, !drop_app_length].
  destruct (flash - 4096 - n <=? 0); run_cbn.
  - by rewrite <- !app_assoc, !drop_app_length.
  - rewrite <- !app_assoc, !drop_app_length.
    split; [done |]. split; [done |]. split; [done |]. intros _.
    split; [by rewrite !lookup_insert_eq |].
    intros name Hn. unfold published_names in Hn.
    repeat (apply elem_of_cons in Hn as [-> | Hn]; [by simplify_map_eq |]).
    by apply elem_of_nil in Hn.
Qed.

Lemma populate_depends_on_two_options_witness :
  ending_of (populate_sketch_partition_info (world_2MB "1MB"))
  = ending_of (populate_sketch_partition_info world_custom_ldscript) ∧
  emitted (stdout (world_2MB "1MB"))
    (stdout (world_of (populate_sketch_partition_info (world_2MB "1MB"))))
  = emitted (stdout world_custom_ldscript)
      (stdout (world_of (populate_sketch_partition_info world_custom_ldscript))).
Proof.
  pose proof (populate_depends_on_two_options (world_2MB "1MB")
                world_custom_ldscript eq_refl eq_refl) as (H1 & H2 & _).
  exact (conj H1 H2).
Defined.

(** * Further properties *)

(** ** The language of the regular expression *)

(** X1: [re.findall] returns at most one pair of groups; it returns the pair
    of a number and a unit run exactly for the strings made of a number
    text (digits, or digits if any, a point and digits), a run of the
    letters m, k, b in either case, and possibly a final newline; it
    returns nothing for every other string. *)
Theorem re_findall_accepts_language s :
  (length (re_findall s) ≤ 1)%nat ∧
  (∀ n f, re_findall s = [(n, f)] ↔ regex_match s n f) ∧
  (re_findall s = [] ↔ ∀ n f, ¬ regex_match s n f).
Proof.
  split; [| split].
  - destruct (re_findall_cases s) as [-> | (n & f & ->)]; simpl; lia.
  - intros n f. apply re_findall_match.
  - apply re_findall_nil.
Qed.

(** ** Whole numbers are parsed exactly *)

(** X2: a whole number of bytes, kilobytes or megabytes is parsed exactly:
    for a text of digits and one of the six units, in either case, whose
    product is below 2^53, the parser returns the number times the unit's
    factor and writes nothing. *)
Theorem convert_whole_number_exact d u k w :
  string_forall is_digit d = true → d ≠ "" →
  (u, k) ∈ unit_spellings →
  digits_value 0 d * k < 2 ^ 53 →
  convert_size_expression_to_int (VStr (d +:+ u)) w
  = Return (digits_value 0 d * k) w.
Proof.
  intros Hd Hne Hu Hlt.
  apply unit_spellings_factor in Hu as [Hf Hk].
  pose proof (conversion_factors_lookup _ _ Hk) as Hk3.
  destruct (factor_holds_int k Hk3) as [Hconv Hky].
  pose proof (digits_value_nonneg d 0 Hd (Z.le_refl 0)) as Hp.
  assert (number_text d) as Hn by (by apply number_whole).
  rewrite (convert_parsed (d +:+ u) d u) by (repeat split; auto).
  rewrite (bind_Return _ _ _ _ _ (py_float_number d w Hn)).
  erewrite bind_Return; [| unfold dict_get; rewrite Hk; reflexivity].
  erewrite bind_Return; [| unfold float_of_int; rewrite Hconv; reflexivity].
  apply int_of_float_holds_int, SFmul_holds_int; [| done | done | lia | done].
  unfold number_float. rewrite (span_all _ _ Hd). simpl.
  apply float_of_ratio_whole. nia.
Qed.

Lemma convert_whole_number_exact_witness :
  string_forall is_digit "16" = true ∧
  ("MB", 1024 * 1024) ∈ unit_spellings ∧
  convert_size_expression_to_int (VStr "16MB") (fresh_world ∅)
  = Return 16777216 (fresh_world ∅).
Proof.
  assert (("MB", 1024 * 1024) ∈ unit_spellings) as Hu
    by (unfold unit_spellings; set_solver).
  split; [reflexivity |]. split; [exact Hu |].
  refine (convert_whole_number_exact "16" "MB" (1024 * 1024) (fresh_world ∅)
            eq_refl _ Hu eq_refl).
  discriminate.
Defined.

(** ** Further properties of the parser *)

Lemma upper_unit_letter c :
  is_unit_letter c = true →
  is_unit_letter (upper_char c) = true ∧ upper_char (upper_char c) = upper_char c.
Proof.
  unfold is_unit_letter. intros H%bool_decide_eq_true.
  repeat (apply elem_of_cons in H as [-> | H]; [by split |]).
  by apply elem_of_nil in H.
Qed.

Lemma upper_unit_run f :
  string_forall is_unit_letter f = true →
  string_forall is_unit_letter (upper f) = true ∧ upper (upper f) = upper f.
Proof.
  unfold upper. induction f as [|c f IH]; simpl; [done |].
  intros [Hc Hf]%andb_true_iff.
  destruct (upper_unit_letter c Hc) as [H1 H2], (IH Hf) as [H3 H4].
  by rewrite H1, H2, H3, H4.
Qed.

(** X3: the unit is read without regard to case: a run of unit letters and
    its upper-case form give the same result, whatever it is. *)
Theorem convert_ignores_unit_case n f w :
  number_text n → string_forall is_unit_letter f = true →
  convert_size_expression_to_int (VStr (n +:+ f)) w
  = convert_size_expression_to_int (VStr (n +:+ upper f)) w.
Proof.
  intros Hn Hf. destruct (upper_unit_run f Hf) as [Hu Hi].
  rewrite (convert_parsed (n +:+ f) n f) by (repeat split; auto).
  rewrite (convert_parsed (n +:+ upper f) n (upper f)) by (repeat split; auto).
  by rewrite Hi.
Qed.

Lemma convert_ignores_unit_case_witness :
  number_text "2" ∧ string_forall is_unit_letter "mb" = true ∧
  convert_size_expression_to_int (VStr "2mb") (fresh_world ∅)
  = convert_size_expression_to_int (VStr "2MB") (fresh_world ∅).
Proof.
  assert (number_text "2") as Hn by (by apply number_whole).
  split; [exact Hn |]. split; [reflexivity |].
  exact (convert_ignores_unit_case "2" "mb" (fresh_world ∅) Hn eq_refl).
Defined.

(** X4: a newline at the end of a size expression is ignored. *)
Theorem convert_ignores_final_newline n f w :
  number_text n → string_forall is_unit_letter f = true →
  convert_size_expression_to_int (VStr (n +:+ f +:+ String newline "")) w
  = convert_size_expression_to_int (VStr (n +:+ f)) w.
Proof.
  intros Hn Hf.
  rewrite (convert_parsed (n +:+ f +:+ String newline "") n f)
    by (repeat split; auto).
  by rewrite (convert_parsed (n +:+ f) n f) by (repeat split; auto).
Qed.

Lemma convert_ignores_final_newline_witness :
  number_text "512" ∧ string_forall is_unit_letter "K" = true ∧
  convert_size_expression_to_int (VStr ("512K" +:+ String newline ""))
    (fresh_world ∅)
  = convert_size_expression_to_int (VStr "512K") (fresh_world ∅).
Proof.
  assert (number_text "512") as Hn by (by apply number_whole).
  split; [exact Hn |]. split; [reflexivity |].
  exact (convert_ignores_final_newline "512" "K" (fresh_world ∅) Hn eq_refl).
Defined.

(** X5: every string either lies outside the language of the regular
    expression, and then the parser returns 0 after one diagnostic, or
    lies in it, and then the parser leaves both streams and the rest of
    the world as they are, whether it returns or raises. *)
Theorem convert_diagnostic_iff_unmatched s w :
  ((∀ n f, ¬ regex_match s n f) ∧
   convert_size_expression_to_int (VStr s) w
   = Return 0 (add_stderr w [MsgParseError s])) ∨
  ((∃ n f, regex_match s n f) ∧
   world_of (convert_size_expression_to_int (VStr s) w) = w).
Proof.
  destruct (re_findall_cases s) as [Hnil | (n & f & Hm)].
  - left. pose proof (proj1 (re_findall_nil s) Hnil) as Hno.
    split; [done |]. by apply convert_unparsable.
  - right. apply re_findall_match in Hm. split; [eauto |].
    rewrite (convert_parsed s n f _ Hm).
    assert (pure_comp (number ← py_float n;
                       k ← dict_get conversion_factors (upper f);
                       k ← float_of_int k;
                       int_of_float (SFmul prec emax number k))) as [r Hr].
    { apply pure_bind; [apply pure_py_float |]. intros x.
      apply pure_bind; [apply pure_dict_get |]. intros k.
      apply pure_bind; [apply pure_float_of_int |]. intros y.
      apply pure_int_of_float. }
    rewrite Hr. by destruct r.
Qed.

(** X6: the parser never returns more than the largest finite float,
    (2^53 - 1) * 2^971. *)
Theorem convert_returns_at_most_max_float v w n w' :
  convert_size_expression_to_int v w = Return n w' →
  n ≤ (2 ^ 53 - 1) * 2 ^ 971.
Proof. apply convert_returns_bounded. Qed.

Lemma number_float_leading_zero n :
  number_float (String "0" n) = number_float n.
Proof.
  unfold number_float. simpl. destruct (span is_digit n) as [i r].
  destruct (after_point r) as [f|]; by rewrite ?append_cons.
Qed.

Lemma convert_returns_at_most_max_float_witness :
  convert_size_expression_to_int (VStr "1.5MB") (fresh_world ∅)
  = Return 1572864 (fresh_world ∅) ∧
  1572864 ≤ (2 ^ 53 - 1) * 2 ^ 971.
Proof.
  split; [reflexivity |].
  exact (convert_returns_at_most_max_float (VStr "1.5MB") (fresh_world ∅)
           1572864 (fresh_world ∅) eq_refl).
Defined.

Lemma number_text_leading_zero n : number_text n → number_text (String "0" n).
Proof.
  intros [d Hd Hne | d0 d Hd0 Hd Hne].
  - by apply number_whole.
  - rewrite <- append_cons. by apply number_point.
Qed.

(** X7: a zero in front of a size expression of the language changes
    nothing. *)
Theorem convert_ignores_leading_zero s n f w :
  regex_match s n f →
  convert_size_expression_to_int (VStr (String "0" s)) w
  = convert_size_expression_to_int (VStr s) w.
Proof.
  intros Hm. rewrite (convert_parsed s n f _ Hm).
  rewrite (convert_parsed (String "0" s) (String "0" n) f).
  - destruct Hm as (Hn & _ & _).
    rewrite (bind_Return _ _ _ _ _ (py_float_number n w Hn)).
    rewrite (bind_Return _ _ _ _ _
               (py_float_number _ w (number_text_leading_zero n Hn))).
    by rewrite number_float_leading_zero.
  - destruct Hm as (Hn & Hf & Hs).
    split; [by apply number_text_leading_zero |]. split; [done |].
    rewrite !append_cons. destruct Hs as [-> | ->]; auto.
Qed.

Lemma convert_ignores_leading_zero_witness :
  regex_match ".5K" ".5" "K" ∧
  convert_size_expression_to_int (VStr "0.5K") (fresh_world ∅)
  = convert_size_expression_to_int (VStr ".5K") (fresh_world ∅).
Proof.
  assert (regex_match ".5K" ".5" "K") as Hm.
  { split; [by apply (number_point "" "5") |]. split; [reflexivity |]. by left. }
  split; [exact Hm |].
  exact (convert_ignores_leading_zero ".5K" ".5" "K" (fresh_world ∅) Hm).
Defined.

(** ** Further properties of the partition calculator *)

Ltac frame_solver Hnil :=
  split; [reflexivity |];
  split; [first [by eexists | apply Hnil] |];
  split; [first [by eexists | apply Hnil] |];
  first [done | intros H; by destruct H].

(** X8: a run changes the board configuration and the construction variables
    only when it returns: if it raises or exits, both are as before. In
    every case the dependency edges are untouched and the two streams
    are only added to. *)
Theorem populate_publishes_all_or_nothing w :
  depends (world_of (populate_sketch_partition_info w)) = depends w ∧
  (∃ out, stdout (world_of (populate_sketch_partition_info w)) = stdout w ++ out) ∧
  (∃ err, stderr (world_of (populate_sketch_partition_info w)) = stderr w ++ err) ∧
  (ending_of (populate_sketch_partition_info w) ≠ Returned →
   board (world_of (populate_sketch_partition_info w)) = board w ∧
   env (world_of (populate_sketch_partition_info w)) = env w).
Proof.
  assert (∀ l : list message, ∃ x, l = l ++ x) as Hnil
    by (intros l; exists []; by rewrite app_nil_r).
  unfold populate_sketch_partition_info.
  unfold board_get, board_get_default, mbind, M_bind.
  destruct (board w !! "upload.maximum_size") as [fv|]; cbn beta iota.
  2: { run_cbn. frame_solver Hnil. }
  destruct (convert_uniform (default (VStr "0MB")
              (board w !! "build.filesystem_size"))) as (r & l & Hc).
  rewrite !Hc.
  destruct r as [n|e]; cbn beta iota.
  2: { run_cbn. frame_solver Hnil. }
  destruct fv as [|flash|s|vs]; run_cbn; try (by frame_solver Hnil).
  rewrite !megabytes_cases.
  destruct (float_convertible flash); run_cbn; [| by frame_solver Hnil].
  rewrite !megabytes_cases.
  destruct (float_convertible (flash - 4096 - n)); run_cbn;
    [| by frame_solver Hnil].
  rewrite !megabytes_cases.
  destruct (float_convertible n); run_cbn;
    [| rewrite <- !app_assoc; by frame_solver Hnil].
  destruct (flash - 4096 - n <=? 0); run_cbn;
    rewrite <- !app_assoc; by frame_solver Hnil.
Qed.

Lemma populate_publishes_all_or_nothing_witness :
  ending_of (populate_sketch_partition_info (world_2MB "2MB")) ≠ Returned ∧
  board (world_of (populate_sketch_partition_info (world_2MB "2MB")))
  = board (world_2MB "2MB") ∧
  env (world_of (populate_sketch_partition_info (world_2MB "2MB")))
  = env (world_2MB "2MB").
Proof.
  assert (ending_of (populate_sketch_partition_info (world_2MB "2MB")) ≠ Returned)
    as Hne by (by vm_compute).
  split; [exact Hne |].
  exact (proj2 (proj2 (proj2
           (populate_publishes_all_or_nothing (world_2MB "2MB")))) Hne).
Defined.

(** X9: a file-system size that cannot be parsed counts as no file system:
    after the parser's diagnostic the run goes on and publishes the layout
    of a board without file system. *)
Theorem populate_unparsable_size_is_zero w flash s :
  board w !! "upload.maximum_size" = Some (VInt flash) →
  board w !! "build.filesystem_size" = Some (VStr s) →
  (∀ n f, ¬ regex_match s n f) →
  4096 < flash < float_overflow_threshold →
  populate_sketch_partition_info w
  = Return tt (layout_published (add_stderr w [MsgParseError s]) flash 0).
Proof.
  intros Hflash Hs Hno Hf.
  apply populate_success; [done | | lia | lia].
  rewrite Hs. simpl. by apply convert_unparsable.
Qed.

Lemma populate_unparsable_size_is_zero_witness :
  (∀ n f, ¬ regex_match "garbage" n f) ∧
  populate_sketch_partition_info (world_2MB "garbage")
  = Return tt
      (layout_published
         (add_stderr (world_2MB "garbage") [MsgParseError "garbage"])
         (2 * 1024 * 1024) 0).
Proof.
  assert (∀ n f, ¬ regex_match "garbage" n f) as Hno
    by (by apply re_findall_nil).
  split; [exact Hno |].
  refine (populate_unparsable_size_is_zero (world_2MB "garbage")
            (2 * 1024 * 1024) "garbage" eq_refl eq_refl Hno (conj eq_refl eq_refl)).
Defined.

(** X10: the run passes exactly when the file system is smaller than the flash
    less its last 4096 bytes; a file system of flash_size - 4096 bytes
    ends the build. *)
Theorem populate_passes_iff_room w flash fs w1 :
  board w !! "upload.maximum_size" = Some (VInt flash) →
  convert_size_expression_to_int
    (default (VStr "0MB") (board w !! "build.filesystem_size")) w
  = Return fs w1 →
  0 ≤ flash < float_overflow_threshold →
  (ending_of (populate_sketch_partition_info w) = Returned ↔ fs < flash - 4096) ∧
  (ending_of (populate_sketch_partition_info w) = Exiting (-1) ↔ flash - 4096 ≤ fs).
Proof.
  intros Hflash Hconv Hf.
  destruct (Z.lt_ge_cases fs (flash - 4096)) as [Hlt | Hge].
  - rewrite (populate_success _ _ _ _ Hflash Hconv) by lia. simpl.
    split; split; (done || lia).
  - rewrite (populate_fatal _ _ _ _ Hflash Hconv) by lia. simpl.
    split; split; (done || lia).
Qed.

Lemma populate_passes_iff_room_witness :
  ending_of (populate_sketch_partition_info (world_2MB "2093056"))
  = Exiting (-1) ∧
  ending_of (populate_sketch_partition_info (world_2MB "2093055")) = Returned.
Proof.
  split.
  - refine (proj2 (proj2 (populate_passes_iff_room (world_2MB "2093056")
              (2 * 1024 * 1024) 2093056 (world_2MB "2093056")
              eq_refl eq_refl (conj _ eq_refl))) _); by vm_compute.
  - refine (proj2 (proj1 (populate_passes_iff_room (world_2MB "2093055")
              (2 * 1024 * 1024) 2093055 (world_2MB "2093055")
              eq_refl eq_refl (conj _ eq_refl))) _); by vm_compute.
Defined.

(** X11: the published regions tile the flash: the sketch runs from the base
    address to the start of the file system, the file system ends where
    the EEPROM page starts, and that page is the last 4096 bytes. *)
Theorem populate_regions_tile_flash w flash fs w1 :
  board w !! "upload.maximum_size" = Some (VInt flash) →
  convert_size_expression_to_int
    (default (VStr "0MB") (board w !! "build.filesystem_size")) w
  = Return fs w1 →
  0 < flash - 4096 - fs →
  flash < float_overflow_threshold →
  ∃ w' flash_length eeprom_start fs_start fs_end,
    populate_sketch_partition_info w = Return tt w' ∧
    env w' !! "PICO_FLASH_LENGTH" = Some (VInt flash_length) ∧
    env w' !! "PICO_EEPROM_START" = Some (VInt eeprom_start) ∧
    env w' !! "PICO_FS_START" = Some (VInt fs_start) ∧
    env w' !! "PICO_FS_END" = Some (VInt fs_end) ∧
    0x10000000 + flash_length = fs_start ∧
    0x10000000 < fs_start ≤ fs_end ∧
    fs_end = eeprom_start ∧
    eeprom_start + 4096 = 0x10000000 + flash.
Proof.
  intros Hflash Hconv Hpos Hf.
  pose proof (convert_returns_unsigned _ _ _ _ Hconv) as Hfs.
  destruct (lookup_published w1 flash fs) as (_ & H2 & H3 & H4 & H5).
  eexists _, _, _, _, _.
  split; [by apply populate_success |].
  split; [exact H2 |]. split; [exact H3 |]. split; [exact H4 |].
  split; [exact H5 |]. lia.
Qed.

Lemma populate_regions_tile_flash_witness :
  ∃ w' flash_length eeprom_start fs_start fs_end,
    populate_sketch_partition_info (world_2MB "1MB") = Return tt w' ∧
    env w' !! "PICO_FLASH_LENGTH" = Some (VInt flash_length) ∧
    env w' !! "PICO_EEPROM_START" = Some (VInt eeprom_start) ∧
    env w' !! "PICO_FS_START" = Some (VInt fs_start) ∧
    env w' !! "PICO_FS_END" = Some (VInt fs_end) ∧
    0x10000000 + flash_length = fs_start ∧
    0x10000000 < fs_start ≤ fs_end ∧
    fs_end = eeprom_start ∧
    eeprom_start + 4096 = 0x10000000 + 2 * 1024 * 1024.
Proof.
  exact (populate_regions_tile_flash (world_2MB "1MB") (2 * 1024 * 1024)
           (1024 * 1024) (world_2MB "1MB") eq_refl eq_refl eq_refl eq_refl).
Defined.

Lemma convert_any_world v w n w1 w' :
  convert_size_expression_to_int v w = Return n w1 →
  ∃ l, w1 = add_stderr w l ∧
       convert_size_expression_to_int v w' = Return n (add_stderr w' l).
Proof.
  destruct (convert_uniform v) as (r & l & H). rewrite H.
  destruct r as [m|e]; [|done]. intros [= <- <-].
  exists l. split; [done |]. by rewrite H.
Qed.

(** X12: every run that passes takes 4096 bytes and the file system off
    upload.maximum_size again: a second run on the configuration the
    first one left starts from the reduced size. *)
Theorem populate_twice_shrinks_twice w flash fs w1 :
  board w !! "upload.maximum_size" = Some (VInt flash) →
  convert_size_expression_to_int
    (default (VStr "0MB") (board w !! "build.filesystem_size")) w
  = Return fs w1 →
  0 < flash - 2 * (4096 + fs) →
  flash < float_overflow_threshold →
  ∃ w2 w3,
    populate_sketch_partition_info w = Return tt w2 ∧
    populate_sketch_partition_info w2 = Return tt w3 ∧
    board w2 !! "upload.maximum_size" = Some (VInt (flash - (4096 + fs))) ∧
    board w3 !! "upload.maximum_size" = Some (VInt (flash - 2 * (4096 + fs))) ∧
    env w3 !! "PICO_FLASH_LENGTH" = Some (VInt (flash - 2 * (4096 + fs))) ∧
    env w3 !! "PICO_FS_END" = Some (VInt (0x10000000 + flash - 4096 - (4096 + fs))).
Proof.
  intros Hflash Hconv Hpos Hf.
  pose proof (convert_returns_unsigned _ _ _ _ Hconv) as Hfs.
  set (w2 := layout_published w1 flash fs).
  destruct (convert_any_world _ _ _ _ w2 Hconv) as (l & Hw1 & Hconv2).
  assert (board w2 !! "upload.maximum_size" = Some (VInt (flash - 4096 - fs)))
    as Hflash2 by apply lookup_published.
  assert (board w2 !! "build.filesystem_size" = board w !! "build.filesystem_size")
    as Hfs2.
  { unfold w2, layout_published. simpl. rewrite lookup_insert_ne by done.
    by rewrite Hw1. }
  rewrite <- Hfs2 in Hconv2.
  destruct (lookup_published (add_stderr w2 l) (flash - 4096 - fs) fs)
    as (H1 & H2 & _ & _ & H5).
  exists w2, (layout_published (add_stderr w2 l) (flash - 4096 - fs) fs).
  split; [apply populate_success; (done || lia) |].
  split; [apply populate_success; (done || lia) |].
  split; [rewrite Hflash2; do 2 f_equal; lia |].
  split; [rewrite H1; do 2 f_equal; lia |].
  split; [rewrite H2; do 2 f_equal; lia |].
  rewrite H5. do 2 f_equal. lia.
Qed.

Lemma populate_twice_shrinks_twice_witness :
  ∃ w2 w3,
    populate_sketch_partition_info (world_2MB "512K") = Return tt w2 ∧
    populate_sketch_partition_info w2 = Return tt w3 ∧
    board w2 !! "upload.maximum_size" = Some (VInt 1568768) ∧
    board w3 !! "upload.maximum_size" = Some (VInt 1040384) ∧
    env w3 !! "PICO_FLASH_LENGTH" = Some (VInt 1040384) ∧
    env w3 !! "PICO_FS_END" = Some (VInt 270000128).
Proof.
  exact (populate_twice_shrinks_twice (world_2MB "512K") (2 * 1024 * 1024)
           (512 * 1024) (world_2MB "512K") eq_refl eq_refl eq_refl eq_refl).
Defined.

(** ** Further properties of the selection of the linker script *)

(** X13: without a linker script of its own, a board whose partition passes
    gets the generated script: the program depends on it, LDSCRIPT_PATH
    names it, and the board option and the four variables are those the
    calculator left. *)
Theorem select_after_partition w w1 :
  truthy (default (VStr "") (board w !! "build.ldscript")) = false →
  populate_sketch_partition_info w = Return tt w1 →
  ∃ w2,
    select_linker_script w = Return tt w2 ∧
    env w2 !! "LDSCRIPT_PATH" = Some (VStr "$BUILD_DIR/memmap_default.ld") ∧
    depends w2
    = depends w1 ++ [("$BUILD_DIR/${PROGNAME}.elf", "$BUILD_DIR/memmap_default.ld")] ∧
    board w2 = board w1 ∧
    (∀ name, name ∈ published_names → env w2 !! name = env w1 !! name).
Proof.
  intros Ht Hp. unfold select_linker_script.
  erewrite bind_Return; [| reflexivity]. rewrite Ht. simpl.
  erewrite bind_Return; [| exact Hp].
  eexists. split; [reflexivity |]. simpl.
  split; [by rewrite lookup_insert_eq |]. split; [done |]. split; [done |].
  intros name Hn. apply lookup_insert_ne. unfold published_names in Hn.
  intros <-.
  repeat (apply elem_of_cons in Hn as [Hn | Hn]; [done |]).
  by apply elem_of_nil in Hn.
Qed.

Lemma select_after_partition_witness :
  ∃ w2,
    select_linker_script (world_2MB "1MB") = Return tt w2 ∧
    env w2 !! "LDSCRIPT_PATH" = Some (VStr "$BUILD_DIR/memmap_default.ld") ∧
    depends w2
    = [("$BUILD_DIR/${PROGNAME}.elf", "$BUILD_DIR/memmap_default.ld")].
Proof.
  destruct (select_after_partition (world_2MB "1MB")
              (layout_published (world_2MB "1MB") (2 * 1024 * 1024) (1024 * 1024))
              eq_refl eq_refl) as (w2 & H1 & H2 & H3 & _).
  exists w2. split; [exact H1 |]. split; [exact H2 |]. exact H3.
Defined.

(** X14: when the calculator raises or exits, so does the statement, in the
    same world: no dependency is added and LDSCRIPT_PATH is not set. *)
Theorem select_stops_with_partition w :
  truthy (default (VStr "") (board w !! "build.ldscript")) = false →
  ending_of (populate_sketch_partition_info w) ≠ Returned →
  select_linker_script w = populate_sketch_partition_info w.
Proof.
  intros Ht Hne. unfold select_linker_script.
  erewrite bind_Return; [| reflexivity]. rewrite Ht. simpl.
  destruct (populate_sketch_partition_info w) as [[] w1|e w1|st w1] eqn:Hp.
  - done.
  - by apply bind_Raised.
  - by apply bind_Exited.
Qed.

Lemma select_stops_with_partition_witness :
  select_linker_script (world_2MB "2MB")
  = populate_sketch_partition_info (world_2MB "2MB") ∧
  ending_of (select_linker_script (world_2MB "2MB")) = Exiting (-1).
Proof.
  assert (ending_of (populate_sketch_partition_info (world_2MB "2MB")) ≠ Returned)
    as Hne by (by vm_compute).
  pose proof (select_stops_with_partition (world_2MB "2MB") eq_refl Hne) as H.
  split; [exact H |]. rewrite H. by vm_compute.
Defined.

(** ** Properties of [configure_usb_flags] *)

Arguments os_path_join : simpl never.

Ltac usb_unfold :=
  unfold configure_usb_flags, assign_hw_id, mbind, UM_bind, mret, UM_ret,
    um_lift, usb_board_get, usb_board_update, append_cpppath,
    append_cppdefines, set_ram_size, get_ram_size.

(** X15: the board configuration changes only when the function returns: if a
    subscript or an item assignment raises, build.hwids and every other
    option are as before. *)
Theorem configure_usb_flags_raises_board_unchanged fw proto defs s e s' :
  configure_usb_flags fw proto defs s = (inr e, s') →
  usb_board s' = usb_board s.
Proof.
  usb_unfold.
  destruct (py_in_str "USE_TINYUSB" defs);
    [| destruct (py_in_str "PIO_FRAMEWORK_ARDUINO_NO_USB" defs); [done |]];
    (destruct (usb_board s !! "build.hwids") as [hw|] eqn:Hhw;
     [| destruct (String.eqb proto "picoprobe"),
             (String.eqb proto "picodebug");
        repeat (progress (simpl; rewrite ?Hhw)); by intros; simplify_eq]);
    (destruct hw as [|z|str|[|row rest]];
     [ | | destruct str | |]);
    try (repeat (progress (simpl; rewrite ?Hhw)); by intros; simplify_eq);
    (destruct row as [|z|str|[|a [|b tl]]];
     [ | | destruct str as [|c1 [|c2 str]] | | |]);
    try (repeat (progress (simpl; rewrite ?Hhw)); by intros; simplify_eq);
    destruct (String.eqb proto "picoprobe"),
         (String.eqb proto "picodebug");
    repeat (progress (simpl; rewrite ?Hhw)); by intros; simplify_eq.
Qed.

Lemma configure_usb_flags_raises_board_unchanged_witness :
  ∃ s',
    configure_usb_flags "/fw" "picoprobe" [] (usb_fresh (board_hwids (VList [VStr "ab"])))
    = (inr ItemTypeError, s') ∧
    usb_board s' = usb_board (usb_fresh (board_hwids (VList [VStr "ab"]))).
Proof.
  exists (configure_usb_flags "/fw" "picoprobe" []
            (usb_fresh (board_hwids (VList [VStr "ab"])))).2.
  assert (configure_usb_flags "/fw" "picoprobe" []
            (usb_fresh (board_hwids (VList [VStr "ab"])))
          = (inr ItemTypeError,
             (configure_usb_flags "/fw" "picoprobe" []
                (usb_fresh (board_hwids (VList [VStr "ab"])))).2)) as H
    by (by vm_compute).
  split; [exact H |].
  exact (configure_usb_flags_raises_board_unchanged _ _ _ _ _ _ H).
Defined.

Ltac usb_run Hhw := repeat (progress (simpl; rewrite ?Hhw)).

(** X16: with build.hwids holding a list whose first row has two entries or
    more, the function returns unless it took the early exit, and it
    rewrites the first two entries of that row and nothing else of
    build.hwids: to the board's vendor id and "0x0004" for picoprobe, to
    "0x1209" and "0x2488" for picodebug, to the board's own ids
    otherwise. Apart from upload.maximum_ram_size no other option
    changes. *)
Theorem configure_usb_flags_rewrites_first_row fw proto defs s a b tl rest :
  py_in_str "USE_TINYUSB" defs
  || negb (py_in_str "PIO_FRAMEWORK_ARDUINO_NO_USB" defs) = true →
  usb_board s !! "build.hwids" = Some (VList (VList (a :: b :: tl) :: rest)) →
  ∃ s',
    configure_usb_flags fw proto defs s = (inl tt, s') ∧
    usb_board s' !! "build.hwids"
    = Some (VList (VList
        ((if String.eqb proto "picoprobe" then
            default a (usb_board s !! "build.arduino.earlephilhower.usb_vid")
          else if String.eqb proto "picodebug" then VStr "0x1209"
          else default a (usb_board s !! "build.arduino.earlephilhower.usb_vid"))
         :: (if String.eqb proto "picoprobe" then VStr "0x0004"
             else if String.eqb proto "picodebug" then VStr "0x2488"
             else default b (usb_board s !! "build.arduino.earlephilhower.usb_pid"))
         :: tl) :: rest)) ∧
    (∀ path, path ≠ "build.hwids" → path ≠ "upload.maximum_ram_size" →
             usb_board s' !! path = usb_board s !! path).
Proof.
  intros Hpath Hhw. usb_unfold.
  destruct (py_in_str "USE_TINYUSB" defs);
    [| destruct (py_in_str "PIO_FRAMEWORK_ARDUINO_NO_USB" defs); [done |]];
    destruct (String.eqb proto "picoprobe"), (String.eqb proto "picodebug");
    usb_run Hhw;
    (eexists; split; [reflexivity |]; simpl;
     split; [by simplify_map_eq |];
     intros path H1 H2; by rewrite !lookup_insert_ne by done).
Qed.

Lemma configure_usb_flags_rewrites_first_row_witness :
  ∃ s',
    configure_usb_flags "/fw" "picoprobe" []
      (usb_fresh (board_hwids
         (VList [VList [VStr "0x2E8A"; VStr "0x00C0"; VStr "x"]; VList []])))
    = (inl tt, s') ∧
    usb_board s' !! "build.hwids"
    = Some (VList [VList [VStr "0x2E8A"; VStr "0x0004"; VStr "x"]; VList []]).
Proof.
  destruct (configure_usb_flags_rewrites_first_row "/fw" "picoprobe" []
              (usb_fresh (board_hwids
                 (VList [VList [VStr "0x2E8A"; VStr "0x00C0"; VStr "x"]; VList []])))
              (VStr "0x2E8A") (VStr "0x00C0") [VStr "x"] [VList []]
              eq_refl eq_refl) as (s' & H1 & H2 & _).
  exists s'. split; [exact H1 | exact H2].
Defined.

(** X17: without build.hwids the function returns, unless it took the early
    exit, and build.hwids becomes a single row of two entries; the
    defaults "0x2E8A" and "0x00C0" of that row are both overwritten,
    by the configured ids or, without them, by the integer 0 that the
    defaults of the ids come from. *)
Theorem configure_usb_flags_without_hwids fw proto defs s :
  py_in_str "USE_TINYUSB" defs
  || negb (py_in_str "PIO_FRAMEWORK_ARDUINO_NO_USB" defs) = true →
  usb_board s !! "build.hwids" = None →
  ∃ s',
    configure_usb_flags fw proto defs s = (inl tt, s') ∧
    usb_board s' !! "build.hwids"
    = Some (VList [VList
        [ if String.eqb proto "picoprobe" then
            default (VInt 0)
              (usb_board s !! "build.arduino.earlephilhower.usb_vid")
          else if String.eqb proto "picodebug" then VStr "0x1209"
          else default (VInt 0)
                 (usb_board s !! "build.arduino.earlephilhower.usb_vid");
          if String.eqb proto "picoprobe" then VStr "0x0004"
          else if String.eqb proto "picodebug" then VStr "0x2488"
          else default (VInt 0)
                 (usb_board s !! "build.arduino.earlephilhower.usb_pid") ]]).
Proof.
  intros Hpath Hhw. usb_unfold.
  destruct (py_in_str "USE_TINYUSB" defs);
    [| destruct (py_in_str "PIO_FRAMEWORK_ARDUINO_NO_USB" defs); [done |]];
    destruct (String.eqb proto "picoprobe"), (String.eqb proto "picodebug");
    usb_run Hhw;
    (eexists; split; [reflexivity |]; simpl; by simplify_map_eq).
Qed.

Lemma configure_usb_flags_without_hwids_witness :
  ∃ s',
    configure_usb_flags "/fw" "picotool" [] (usb_fresh ∅) = (inl tt, s') ∧
    usb_board s' !! "build.hwids" = Some (VList [VList [VInt 0; VInt 0]]).
Proof.
  exact (configure_usb_flags_without_hwids "/fw" "picotool" [] (usb_fresh ∅)
           eq_refl eq_refl).
Defined.

(** X18: the default of each USB id is computed before the option is looked
    up: when the first row of build.hwids has fewer than two entries, or
    there is no row, the function raises IndexError after the include
    path was appended, whether or not the ids are configured. *)
Theorem configure_usb_flags_short_row_raises fw proto defs s l rows :
  py_in_str "USE_TINYUSB" defs
  || negb (py_in_str "PIO_FRAMEWORK_ARDUINO_NO_USB" defs) = true →
  usb_board s !! "build.hwids" = Some (VList rows) →
  rows = [] ∨ (head rows = Some (VList l) ∧ (length l < 2)%nat) →
  ∃ path,
    configure_usb_flags fw proto defs s
    = (inr IndexError,
       UsbState (usb_board s) (usb_cpppath s ++ [path]) (usb_cppdefines s)
                (ram_size s)).
Proof.
  intros Hpath Hhw Hrows. usb_unfold.
  assert (rows = [] ∨ (∃ rest, rows = VList [] :: rest) ∨
          (∃ a rest, rows = VList [a] :: rest)) as Hshape.
  { destruct Hrows as [-> | [Hh Hl]]; [by left | right].
    destruct rows as [|r rest]; [done |]. simpl in Hh. injection Hh as ->.
    destruct l as [|a [|b l]]; [left; eauto | right; eauto | simpl in Hl; lia]. }
  destruct (py_in_str "USE_TINYUSB" defs);
    [| destruct (py_in_str "PIO_FRAMEWORK_ARDUINO_NO_USB" defs); [done |]];
    (destruct Hshape as [-> | [[rest ->] | (a & rest & ->)]];
     usb_run Hhw; by eexists).
Qed.

Lemma configure_usb_flags_short_row_raises_witness :
  ∃ path,
    configure_usb_flags "/fw" "picotool" [] (usb_fresh (board_hwids (VList [])))
    = (inr IndexError,
       UsbState (board_hwids (VList [])) [path] [] (VInt (264 * 1024))).
Proof.
  exact (configure_usb_flags_short_row_raises "/fw" "picotool" []
           (usb_fresh (board_hwids (VList []))) [] [] eq_refl eq_refl
           (or_introl eq_refl)).
Defined.

(** X19: the macros appended to CPPDEFINES, the include path and whether the
    function raises do not depend on the upload protocol: USB_VID, USB_PID
    and SERIALUSB_PID carry the board's ids also under picoprobe and
    picodebug, which change build.hwids alone. *)
Theorem configure_usb_flags_defines_ignore_protocol fw p1 p2 defs s :
  (configure_usb_flags fw p1 defs s).1 = (configure_usb_flags fw p2 defs s).1 ∧
  usb_cpppath (configure_usb_flags fw p1 defs s).2
  = usb_cpppath (configure_usb_flags fw p2 defs s).2 ∧
  usb_cppdefines (configure_usb_flags fw p1 defs s).2
  = usb_cppdefines (configure_usb_flags fw p2 defs s).2.
Proof.
  assert (∀ p,
    (configure_usb_flags fw p defs s).1 = (configure_usb_flags fw "" defs s).1 ∧
    usb_cpppath (configure_usb_flags fw p defs s).2
    = usb_cpppath (configure_usb_flags fw "" defs s).2 ∧
    usb_cppdefines (configure_usb_flags fw p defs s).2
    = usb_cppdefines (configure_usb_flags fw "" defs s).2) as H.
  { intros p. usb_unfold.
    destruct (py_in_str "USE_TINYUSB" defs);
      [| destruct (py_in_str "PIO_FRAMEWORK_ARDUINO_NO_USB" defs); [done |]];
      (destruct (usb_board s !! "build.hwids") as [hw|] eqn:Hhw;
       [| destruct (String.eqb p "picoprobe"), (String.eqb p "picodebug");
          usb_run Hhw; done]);
      (destruct hw as [|z|str|[|row rest]];
       [ | | destruct str | |]);
      try (usb_run Hhw; done);
      (destruct row as [|z|str|[|a [|b tl]]];
       [ | | destruct str as [|c1 [|c2 str]] | | |]);
      try (usb_run Hhw; done);
      destruct (String.eqb p "picoprobe"), (String.eqb p "picodebug");
      usb_run Hhw; done. }
  destruct (H p1) as (A1 & B1 & C1), (H p2) as (A2 & B2 & C2).
  by rewrite A1, A2, B1, B2, C1, C2.
Qed.

(** X20: the RAM size after a call that returns. On the early exit for a build
    without USB neither the global nor the board configuration changes,
    also under picodebug. Otherwise upload.maximum_ram_size is set to the
    global, which picodebug has lowered to 240 KiB, so that the linker
    script gets the RAM length "240k", and which is unchanged for every
    other protocol. *)
Theorem configure_usb_flags_ram_size fw proto defs s s' :
  configure_usb_flags fw proto defs s = (inl tt, s') →
  if negb (py_in_str "USE_TINYUSB" defs)
     && py_in_str "PIO_FRAMEWORK_ARDUINO_NO_USB" defs
  then ram_size s' = ram_size s ∧ usb_board s' = usb_board s
  else usb_board s' !! "upload.maximum_ram_size" = Some (ram_size s') ∧
       if String.eqb proto "picodebug"
       then ram_size s' = VInt (240 * 1024) ∧
            ram_length (ram_size s') = inl "240k"
       else ram_size s' = ram_size s.
Proof.
  usb_unfold.
  destruct (py_in_str "USE_TINYUSB" defs);
    [| destruct (py_in_str "PIO_FRAMEWORK_ARDUINO_NO_USB" defs);
       [simpl; by intros [= <-] |]];
    (destruct (String.eqb_spec proto "picoprobe") as [-> | Hpp];
     [| destruct (String.eqb proto "picodebug")]);
    (destruct (usb_board s !! "build.hwids") as [hw|] eqn:Hhw;
     [| usb_run Hhw; intros [= <-]; simpl; by simplify_map_eq]);
    (destruct hw as [|z|str|[|row rest]];
     [ | | destruct str | |]);
    try (usb_run Hhw; by intros; simplify_eq);
    (destruct row as [|z|str|[|a [|b tl]]];
     [ | | destruct str as [|c1 [|c2 str]] | | |]);
    try (usb_run Hhw; by intros; simplify_eq);
    usb_run Hhw; intros [= <-]; simpl; by simplify_map_eq.
Qed.

Lemma configure_usb_flags_ram_size_witness :
  ∃ s',
    configure_usb_flags "/fw" "picodebug" [VStr "USE_TINYUSB"] (usb_fresh ∅)
    = (inl tt, s') ∧
    usb_board s' !! "upload.maximum_ram_size" = Some (ram_size s') ∧
    ram_size s' = VInt (240 * 1024) ∧
    ram_length (ram_size s') = inl "240k".
Proof.
  exists (configure_usb_flags "/fw" "picodebug" [VStr "USE_TINYUSB"]
            (usb_fresh ∅)).2.
  assert (configure_usb_flags "/fw" "picodebug" [VStr "USE_TINYUSB"] (usb_fresh ∅)
          = (inl tt,
             (configure_usb_flags "/fw" "picodebug" [VStr "USE_TINYUSB"]
                (usb_fresh ∅)).2)) as H
    by (by vm_compute).
  split; [exact H |].
  exact (configure_usb_flags_ram_size _ _ _ _ _ H).
Defined.
